(** * nestjs-generator: the generation-and-mutation pipeline of [bin/cli.js]

    A shallow embedding of the scaffolding tool's code and the properties
    its specification states about it.

    Conventions of the embedding.
    - A JavaScript string is the list of its UTF-16 code units ([jsstring]).
    - The regular expressions of the two root-module patches are values of a
      small regular-expression syntax, run by a backtracking matcher written
      in continuation-passing style like the matcher of the ECMAScript
      specification; [String.prototype.replace] is modelled on top of it,
      including the expansion of [$]-patterns in the replacement text.
    - The asynchronous functions are computations in a state-and-error
      monad over a [World]: the files of the file system and the trace of
      the effects issued so far.  What the file system and the spawned
      processes answer is given by an [Env], over which the theorems
      quantify.  A file holds the string that reading it returns; its
      encoding in bytes and console output are not modelled. *)

From Stdlib Require Import NArith Lia.
From Stdlib Require DecimalString.
From stdpp Require Import base list gmap strings.

Set Default Proof Using "Type".

(* ===================================================================== *)
(** * JavaScript strings *)
(* ===================================================================== *)

Module JS.

(** A string is a sequence of 16-bit code units. *)
Abbreviation code_unit := N (only parsing).
Abbreviation jsstring := (list N) (only parsing).

(** String literals of the source are written as [js "..."]; every literal
    of [cli.js] is ASCII, so a character is its own code unit. *)
Fixpoint js (s : string) : jsstring :=
  match s with
  | EmptyString => []
  | String c s' => Ascii.N_of_ascii c :: js s'
  end.

Definition cu_eqb (a b : code_unit) : bool := N.eqb a b.
Arguments cu_eqb : simpl never.

Fixpoint str_eqb (a b : jsstring) : bool :=
  match a, b with
  | [], [] => true
  | x :: a', y :: b' => cu_eqb x y && str_eqb a' b'
  | _, _ => false
  end.

(** [s.startsWith(p)], returning what follows [p]. *)
Fixpoint strip_prefix (p s : jsstring) : option jsstring :=
  match p, s with
  | [], _ => Some s
  | x :: p', y :: s' => if cu_eqb x y then strip_prefix p' s' else None
  | _ :: _, [] => None
  end.

Definition starts_with (p s : jsstring) : bool :=
  match strip_prefix p s with Some _ => true | None => false end.

(** [s.includes(p)]. *)
Fixpoint includes (p s : jsstring) : bool :=
  starts_with p s ||
  match s with
  | [] => false
  | _ :: s' => includes p s'
  end.

(** Number of positions of [s] at which [p] occurs. *)
Fixpoint occurrences (p s : jsstring) : nat :=
  match s with
  | [] => if starts_with p [] then 1 else 0
  | _ :: s' => (if starts_with p s then 1 else 0) + occurrences p s'
  end.

(** ECMAScript WhiteSpace and LineTerminator code points: the class [\s]
    of regular expressions and the characters removed by [trim]. *)
Definition is_space (c : code_unit) : bool :=
  ((9 <=? c) && (c <=? 13) || (c =? 32) || (c =? 160) || (c =? 5760)
   || (8192 <=? c) && (c <=? 8202) || (c =? 8232) || (c =? 8233)
   || (c =? 8239) || (c =? 8287) || (c =? 12288) || (c =? 65279))%N.
Arguments is_space : simpl never.

(** [s.toLowerCase()] on the Basic Latin letters; the strings lowered by
    the program are the database choices, which are ASCII. *)
Definition lower_cu (c : code_unit) : code_unit :=
  if ((65 <=? c) && (c <=? 90))%N then (c + 32)%N else c.
Definition toLowerCase (s : jsstring) : jsstring := map lower_cu s.

(** [s.trim()]. *)
Fixpoint trim_start (s : jsstring) : jsstring :=
  match s with
  | c :: s' => if is_space c then trim_start s' else s
  | [] => []
  end.
Definition trim_end (s : jsstring) : jsstring := rev (trim_start (rev s)).
Definition trim (s : jsstring) : jsstring := trim_end (trim_start s).

(** [s.split(sep)] for a separator of one code unit: the pieces between the
    separators, of which there is always at least one. *)
Fixpoint split_on (sep : code_unit) (s : jsstring) : list jsstring :=
  match s with
  | [] => [[]]
  | c :: s' =>
      if cu_eqb c sep then [] :: split_on sep s'
      else match split_on sep s' with
           | piece :: pieces => (c :: piece) :: pieces
           | [] => [[c]]
           end
  end.

(** [parts.join(sep)]. *)
Fixpoint join (sep : jsstring) (parts : list jsstring) : jsstring :=
  match parts with
  | [] => []
  | [p] => p
  | p :: ps => p ++ sep ++ join sep ps
  end.

(** [s.substring(i, j)] for [i <= j]. *)
Definition substring (i j : nat) (s : jsstring) : jsstring :=
  take (j - i) (drop i s).

End JS.
Export JS.

(* ===================================================================== *)
(** * Regular expressions and [String.prototype.replace] *)
(* ===================================================================== *)

Module RegExp.

(** Sets of code units that one pattern position can accept. *)
Inductive charset :=
| CsChar (c : code_unit)      (* a pattern character, also escaped: [\[] *)
| CsSpace                     (* [\s] *)
| CsNonSpace                  (* [\S] *)
| CsUnion (a b : charset).    (* a class [[ab]] *)

Fixpoint cs_match (cs : charset) (c : code_unit) : bool :=
  match cs with
  | CsChar c' => cu_eqb c' c
  | CsSpace => is_space c
  | CsNonSpace => negb (is_space c)
  | CsUnion a b => cs_match a c || cs_match b c
  end.

(** The syntax the patterns of [cli.js] need: atoms, sequences, the
    quantifier [*] (greedy) and [*?] (lazy) on an atom, and capturing
    groups, which carry their number (counted by opening parenthesis). *)
Inductive regex :=
| REmpty
| RAtom (cs : charset)
| RSeq (r1 r2 : regex)
| RStar (greedy : bool) (cs : charset)
| RGroup (n : nat) (r : regex).

(** A literal run of pattern characters. *)
Fixpoint rlit (l : jsstring) : regex :=
  match l with
  | [] => REmpty
  | c :: l' => RSeq (RAtom (CsChar c)) (rlit l')
  end.

Fixpoint ngroups (r : regex) : nat :=
  match r with
  | REmpty | RAtom _ | RStar _ _ => 0
  | RSeq r1 r2 => ngroups r1 + ngroups r2
  | RGroup _ r => S (ngroups r)
  end.

(** The state of a match in progress: the index reached, the input from
    there on, and the index range captured by each group so far. *)
Record MatchState := mkState {
  endIndex : nat;
  rest : jsstring;
  captures : gmap nat (nat * nat)
}.

Definition Continuation := MatchState -> option MatchState.

(** [atom*]: as many as possible first, giving one back at a time while
    the continuation fails. *)
Fixpoint repeat_greedy (cs : charset) (k : Continuation)
    (caps : gmap nat (nat * nat)) (e : nat) (s : jsstring) : option MatchState :=
  match s with
  | c :: s' =>
      if cs_match cs c then
        match repeat_greedy cs k caps (S e) s' with
        | Some y => Some y
        | None => k (mkState e s caps)
        end
      else k (mkState e s caps)
  | [] => k (mkState e [] caps)
  end.

(** [atom*?]: the continuation first, one more atom only when it fails. *)
Fixpoint repeat_lazy (cs : charset) (k : Continuation)
    (caps : gmap nat (nat * nat)) (e : nat) (s : jsstring) : option MatchState :=
  match k (mkState e s caps) with
  | Some y => Some y
  | None =>
      match s with
      | c :: s' => if cs_match cs c then repeat_lazy cs k caps (S e) s' else None
      | [] => None
      end
  end.

(** The backtracking matcher: [rmatch r x k] matches [r] from state [x] and
    hands every way of doing so, in priority order, to [k] until one
    succeeds. *)
Fixpoint rmatch (r : regex) (x : MatchState) (k : Continuation) : option MatchState :=
  match r with
  | REmpty => k x
  | RAtom cs =>
      match rest x with
      | c :: s' =>
          if cs_match cs c then k (mkState (S (endIndex x)) s' (captures x)) else None
      | [] => None
      end
  | RSeq r1 r2 => rmatch r1 x (fun y => rmatch r2 y k)
  | RStar greedy cs =>
      (if greedy then repeat_greedy else repeat_lazy)
        cs k (captures x) (endIndex x) (rest x)
  | RGroup n r' =>
      rmatch r' x (fun y =>
        k (mkState (endIndex y) (rest y)
             (<[n := (endIndex x, endIndex y)]> (captures y))))
  end.

Record MatchResult := mkResult {
  index : nat;                       (* where the match starts *)
  lastIndex : nat;                   (* where it ends *)
  groups : gmap nat (nat * nat)
}.

(** [regexp.exec(s)] without flags: the match at the leftmost index that has
    one.  [i] is the index of [s] in the whole input. *)
Fixpoint exec_from (r : regex) (i : nat) (s : jsstring) : option MatchResult :=
  match rmatch r (mkState i s ∅) Some with
  | Some y => Some (mkResult i (endIndex y) (captures y))
  | None =>
      match s with
      | _ :: s' => exec_from r (S i) s'
      | [] => None
      end
  end.

Definition exec (r : regex) (s : jsstring) : option MatchResult := exec_from r 0 s.

Definition is_digit (c : code_unit) : bool := ((48 <=? c) && (c <=? 57))%N.
Definition digit_value (c : code_unit) : nat := N.to_nat (c - 48).

(** GetSubstitution: the replacement text with its [$]-patterns expanded.
    [m] is the number of groups of the pattern, [capture n] the text of
    group [n] (empty when the group took no part in the match). *)
Section GetSubstitution.
Variables (matched before after : jsstring).
Variable (m : nat).
Variable (capture : nat -> jsstring).

Definition group_ref (n : nat) : bool := (1 <=? n)%nat && (n <=? m)%nat.

Fixpoint get_substitution (template : jsstring) : jsstring :=
  match template with
  | [] => []
  | c :: t =>
      if negb (c =? 36)%N then c :: get_substitution t
      else match t with
      | [] => [c]
      | d :: t' =>
          if (d =? 36)%N then 36%N :: get_substitution t'          (* $$ *)
          else if (d =? 38)%N then matched ++ get_substitution t'  (* $& *)
          else if (d =? 96)%N then before ++ get_substitution t'   (* $` *)
          else if (d =? 39)%N then after ++ get_substitution t'    (* $' *)
          else if is_digit d then
            let one := digit_value d in
            let single :=                                          (* $n *)
              if group_ref one then capture one ++ get_substitution t'
              else c :: d :: get_substitution t' in
            match t' with
            | d' :: t'' =>
                let two := (10 * one + digit_value d')%nat in
                if is_digit d' && group_ref two
                then capture two ++ get_substitution t''           (* $nn *)
                else single
            | [] => single
            end
          else c :: d :: get_substitution t'
      end
  end.
End GetSubstitution.

(** [s.replace(regexp, template)] for a pattern without the global flag:
    the first match is replaced, a string without a match is returned as it
    is. *)
Definition replace (r : regex) (template s : jsstring) : jsstring :=
  match exec r s with
  | None => s
  | Some res =>
      let capture n :=
        match groups res !! n with
        | Some (i, j) => substring i j s
        | None => []
        end in
      take (index res) s
      ++ get_substitution
           (substring (index res) (lastIndex res) s)
           (take (index res) s) (drop (lastIndex res) s)
           (ngroups r) capture template
      ++ drop (lastIndex res) s
  end.

End RegExp.
Export RegExp.


(* ===================================================================== *)
(** * Template library and dependency resolver *)
(* ===================================================================== *)

(** The choices offered by the prompts of the [create] command (the
    [choices] lists of the [database] and [orm] questions). *)
Inductive Database := Postgres | MongoDB | MySQL.
Inductive Orm := TypeORM | Mongoose | Sequelize.

Definition database_choice (d : Database) : jsstring :=
  match d with
  | Postgres => js "Postgres"
  | MongoDB => js "MongoDB"
  | MySQL => js "MySQL"
  end.

Definition orm_choice (o : Orm) : jsstring :=
  match o with
  | TypeORM => js "TypeORM"
  | Mongoose => js "Mongoose"
  | Sequelize => js "Sequelize"
  end.

(** A number in a template literal: its decimal digits. *)
Definition number_to_string (n : N) : jsstring :=
  js (DecimalString.NilZero.string_of_uint (N.to_uint n)).

(** [getDatabaseDependencies(database, orm)]: two [switch] statements
    without a default case, pushing onto [deps]. *)
Definition getDatabaseDependencies (database orm : jsstring) : list jsstring :=
  let deps := [] in
  let deps :=
    if str_eqb orm (js "TypeORM") then
      deps ++ [js "typeorm"; js "@nestjs/typeorm"]
    else if str_eqb orm (js "Mongoose") then
      deps ++ [js "mongoose"; js "@nestjs/mongoose"]
    else if str_eqb orm (js "Sequelize") then
      deps ++ [js "sequelize"; js "@nestjs/sequelize"; js "sequelize-typescript"]
    else deps in
  let deps :=
    if str_eqb database (js "PostgreSQL") then deps ++ [js "pg"]
    else if str_eqb database (js "MongoDB") then
      (if negb (str_eqb orm (js "Mongoose")) then deps ++ [js "mongodb"] else deps)
    else if str_eqb database (js "MySQL") then deps ++ [js "mysql2"]
    else deps in
  deps.

(** The port expression of both configuration templates:
    [database === 'PostgreSQL' ? 5432 : 3306]. *)
Definition port_of (database : jsstring) : N :=
  if str_eqb database (js "PostgreSQL") then 5432%N else 3306%N.

Definition getTypeORMConfig (database : jsstring) : jsstring :=
  js "
import { TypeOrmModuleOptions } from '@nestjs/typeorm';

export const databaseConfig: TypeOrmModuleOptions = {
  type: '"
  ++ toLowerCase database ++
  js "',
  host: 'localhost',
  port: "
  ++ number_to_string (port_of database) ++
  js ",
  username: 'your_username',
  password: 'your_password',
  database: 'your_database',
  entities: ['dist/**/*.entity{.ts,.js}'],
  synchronize: true, // set to false in production
};
".

Definition getMongooseConfig : jsstring :=
  js "
export const databaseConfig = {
  uri: 'mongodb://localhost/your_database',
  useNewUrlParser: true,
  useUnifiedTopology: true,
};
".

Definition getSequelizeConfig (database : jsstring) : jsstring :=
  js "
import { SequelizeModuleOptions } from '@nestjs/sequelize';

export const databaseConfig: SequelizeModuleOptions = {
  dialect: '"
  ++ toLowerCase database ++
  js "',
  host: 'localhost',
  port: "
  ++ number_to_string (port_of database) ++
  js ",
  username: 'your_username',
  password: 'your_password',
  database: 'your_database',
  autoLoadModels: true,
  synchronize: true, // set to false in production
};
".

(** The text [createDatabaseConfig] writes: [configContent] after its
    [switch (orm)], empty when no case applies. *)
Definition configContent (database orm : jsstring) : jsstring :=
  if str_eqb orm (js "TypeORM") then getTypeORMConfig database
  else if str_eqb orm (js "Mongoose") then getMongooseConfig
  else if str_eqb orm (js "Sequelize") then getSequelizeConfig database
  else [].

(** The fixed bodies written by [updateResponseInterceptor] and
    [updateErrorInterceptor]. *)
Definition responseInterceptorContent : jsstring :=
  js "
import { Injectable, NestInterceptor, ExecutionContext, CallHandler } from '@nestjs/common';
import { Observable } from 'rxjs';
import { map } from 'rxjs/operators';

export interface Response<T> {
  statusCode: number;
  message: string;
  data: T;
}

@Injectable()
export class ResponseInterceptor<T> implements NestInterceptor<T, Response<T>> {
  intercept(context: ExecutionContext, next: CallHandler): Observable<Response<T>> {
    return next.handle().pipe(
      map(data => ({
        statusCode: context.switchToHttp().getResponse().statusCode,
        message: 'Success',
        data,
      })),
    );
  }
}
".

Definition errorInterceptorContent : jsstring :=
  js "
import {
  Injectable,
  NestInterceptor,
  ExecutionContext,
  CallHandler,
  HttpException,
  HttpStatus,
} from '@nestjs/common';
import { Observable, throwError } from 'rxjs';
import { catchError } from 'rxjs/operators';

@Injectable()
export class ErrorInterceptor implements NestInterceptor {
  intercept(context: ExecutionContext, next: CallHandler): Observable<any> {
    return next.handle().pipe(
      catchError(err => {
        if (err instanceof HttpException) {
          return throwError(() => err);
        }
        return throwError(() => new HttpException({
          statusCode: HttpStatus.INTERNAL_SERVER_ERROR,
          message: 'Internal server error',
          error: err.message,
        }, HttpStatus.INTERNAL_SERVER_ERROR));
      }),
    );
  }
}
".

(* ===================================================================== *)
(** * Source patcher: the text operations on the root module *)
(* ===================================================================== *)

Definition colon : code_unit := 58%N.
Definition lbracket : code_unit := 91%N.
Definition rbracket : code_unit := 93%N.
Definition dollar : code_unit := 36%N.
Definition newline : code_unit := 10%N.
Arguments colon : simpl never.
Arguments lbracket : simpl never.
Arguments rbracket : simpl never.
Arguments dollar : simpl never.
Arguments newline : simpl never.

(** The pattern [/<keyword>:\s*\[([\s\S]*?)\]/]. *)
Definition block_pattern (keyword : jsstring) : regex :=
  RSeq (rlit (keyword ++ [colon]))
    (RSeq (RStar true CsSpace)
      (RSeq (RAtom (CsChar lbracket))
        (RSeq (RGroup 1 (RStar false (CsUnion CsSpace CsNonSpace)))
          (RAtom (CsChar rbracket))))).

(** [/imports:\s*\[([\s\S]*?)\]/] and [/providers:\s*\[([\s\S]*?)\]/]. *)
Definition imports_pattern : regex := block_pattern (js "imports").
Definition providers_pattern : regex := block_pattern (js "providers").

(** [importStatement] and [moduleImport] of [updateAppModuleForDatabase],
    both empty when no case of the [switch (orm)] applies. *)
Definition dbImportStatement (orm : jsstring) : jsstring :=
  if str_eqb orm (js "TypeORM") then
    js "import { TypeOrmModule } from '@nestjs/typeorm';
import { databaseConfig } from './config/database.config';"
  else if str_eqb orm (js "Mongoose") then
    js "import { MongooseModule } from '@nestjs/mongoose';
import { databaseConfig } from './config/database.config';"
  else if str_eqb orm (js "Sequelize") then
    js "import { SequelizeModule } from '@nestjs/sequelize';
import { databaseConfig } from './config/database.config';"
  else [].

Definition dbModuleImport (orm : jsstring) : jsstring :=
  if str_eqb orm (js "TypeORM") then js ",TypeOrmModule.forRoot(databaseConfig),"
  else if str_eqb orm (js "Mongoose") then js ",MongooseModule.forRoot(databaseConfig.uri),"
  else if str_eqb orm (js "Sequelize") then js ",SequelizeModule.forRoot(databaseConfig),"
  else [].

(** The replacement text of the imports patch, after the interpolation of
    [moduleImport]: [`imports: [$1\n    ${moduleImport}\n  ]`]. *)
Definition dbReplacement (orm : jsstring) : jsstring :=
  js "imports: [$1
    " ++ dbModuleImport orm ++ js "
  ]".

(** The two text steps of [updateAppModuleForDatabase] on the content read
    from the root module: the import statement and a newline are put in
    front, then the first imports block is replaced. *)
Definition prependDbImport (orm content : jsstring) : jsstring :=
  dbImportStatement orm ++ [newline] ++ content.

Definition patchDbContent (orm content : jsstring) : jsstring :=
  replace imports_pattern (dbReplacement orm) (prependDbImport orm content).

(** [importStatement] and [providerStatements] of
    [updateAppModuleForInterceptors]. *)
Definition interceptorImportStatement : jsstring :=
  js "
import { APP_INTERCEPTOR } from '@nestjs/core';
import { ResponseInterceptor } from './common/interceptors/response/response.interceptor';
import { ErrorInterceptor } from './common/interceptors/error/error.interceptor';".

Definition providerStatements : jsstring :=
  js ",
    {
      provide: APP_INTERCEPTOR,
      useClass: ResponseInterceptor,
    },
    {
      provide: APP_INTERCEPTOR,
      useClass: ErrorInterceptor,
    },".

(** [`providers: [$1${providerStatements}\n  ]`]. *)
Definition providersReplacement : jsstring :=
  js "providers: [$1" ++ providerStatements ++ js "
  ]".

Definition prependInterceptorImport (content : jsstring) : jsstring :=
  interceptorImportStatement ++ [newline] ++ content.

Definition patchInterceptorContent (content : jsstring) : jsstring :=
  replace providers_pattern providersReplacement (prependInterceptorImport content).


(* ===================================================================== *)
(** * Effects: file system, spawned processes, failure *)
(* ===================================================================== *)

(** One entry per effect the program issues, with whether it went
    through. *)
Inductive Event :=
| EvEnsureDir (path : jsstring) (ok : bool)
| EvExec (command cwd : jsstring) (ok : bool)
| EvReadFile (path : jsstring) (ok : bool)
| EvWriteFile (path content : jsstring) (ok : bool).

Record World := mkWorld {
  files : gmap jsstring jsstring;   (* path to content *)
  trace : list Event                (* oldest first *)
}.

(** The rejection reasons of the awaited promises. *)
Inductive Error :=
| ExecError (command cwd : jsstring)
| FsError (path : jsstring).

Inductive Result (A : Type) :=
| Ok (a : A)
| Err (e : Error).
Arguments Ok {A} a.
Arguments Err {A} e.

(** What is outside the program: the working directory of the process,
    what a spawned command does (whether it exits with status 0, and the
    files it leaves), and whether a file-system call goes through.  Each
    may depend on everything that happened before. *)
Record Env := mkEnv {
  cwd : jsstring;
  spawn : jsstring -> jsstring -> World -> bool * gmap jsstring jsstring;
  dir_ok : jsstring -> World -> bool;
  read_ok : jsstring -> World -> bool;
  write_ok : jsstring -> jsstring -> World -> bool
}.

(** An awaited asynchronous computation. *)
Definition M (A : Type) : Type := World -> Result A * World.

Definition ret {A} (a : A) : M A := fun w => (Ok a, w).
Definition throw {A} (e : Error) : M A := fun w => (Err e, w).
Definition bind {A B} (m : M A) (f : A -> M B) : M B :=
  fun w =>
    match m w with
    | (Ok a, w') => f a w'
    | (Err e, w') => (Err e, w')
    end.
(** [try { m } catch (error) { handler(error) }]. *)
Definition try_catch {A} (m : M A) (handler : Error -> M A) : M A :=
  fun w =>
    match m w with
    | (Ok a, w') => (Ok a, w')
    | (Err e, w') => handler e w'
    end.

Notation "x <- m ;; k" := (bind m (fun x => k))
  (at level 100, m at next level, right associativity).
Notation "m ;; k" := (bind m (fun _ => k))
  (at level 100, right associativity).

(** [for (const x of xs) { await body(x); }]. *)
Fixpoint for_of {A} (xs : list A) (body : A -> M unit) : M unit :=
  match xs with
  | [] => ret tt
  | x :: xs' => body x ;; for_of xs' body
  end.

Definition log (ev : Event) (w : World) : World :=
  mkWorld (files w) (trace w ++ [ev]).

Section Gateways.
Variable env : Env.

(** [fs.ensureDir(path)]. *)
Definition ensureDir (path : jsstring) : M unit := fun w =>
  if dir_ok env path w then (Ok tt, log (EvEnsureDir path true) w)
  else (Err (FsError path), log (EvEnsureDir path false) w).

(** [fs.readFile(path, 'utf8')]. *)
Definition readFile (path : jsstring) : M jsstring := fun w =>
  match (if read_ok env path w then files w !! path else None) with
  | Some content => (Ok content, log (EvReadFile path true) w)
  | None => (Err (FsError path), log (EvReadFile path false) w)
  end.

(** [fs.writeFile(path, content)]: the file has the new content, or the
    call fails and the files are as before. *)
Definition writeFile (path content : jsstring) : M unit := fun w =>
  if write_ok env path content w then
    (Ok tt, mkWorld (<[path := content]> (files w))
                    (trace w ++ [EvWriteFile path content true]))
  else (Err (FsError path), log (EvWriteFile path content false) w).

(** [execPromise(command, { cwd })]: rejected when the process does not
    exit with status 0. *)
Definition execPromise (command dir : jsstring) : M unit := fun w =>
  let '(ok, files') := spawn env command dir w in
  (if ok then Ok tt else Err (ExecError command dir),
   mkWorld files' (trace w ++ [EvExec command dir ok])).
End Gateways.

(** [path.join], [path.basename] and [path.dirname] on paths separated by
    [/].  [path_join] puts a [/] between the segments and [basename] and
    [dirname] cut at the last [/]: this is what Node computes when every
    segment joined is a plain name, not empty, without [/] and other than
    [.] and [..].  The resolution of [.] and [..], and doubled or trailing
    slashes, are not modelled; the properties that name the command or the
    directory of the new application are stated for a plain application
    name ([plain_name] below). *)
Definition slash : code_unit := 47%N.
Definition path_join (segments : list jsstring) : jsstring := join [slash] segments.

Fixpoint split_last (p : jsstring) : option (jsstring * jsstring) :=
  match p with
  | [] => None
  | c :: p' =>
      match split_last p' with
      | Some (d, b) => Some (c :: d, b)
      | None => if cu_eqb c slash then Some ([], p') else None
      end
  end.
Definition basename (p : jsstring) : jsstring :=
  match split_last p with Some (_, b) => b | None => p end.
Definition dirname (p : jsstring) : jsstring :=
  match split_last p with
  | Some ([], _) => [slash]
  | Some (d, _) => d
  | None => js "."
  end.


(* ===================================================================== *)
(** * The orchestrator *)
(* ===================================================================== *)

(** [config.modules] is the array the prompt's filter produced, or still a
    comma-separated string. *)
Inductive ModulesInput :=
| ModArray (names : list jsstring)
| ModString (text : jsstring).

Record Config := mkConfig {
  modules : ModulesInput;
  database : jsstring;
  orm : jsstring;
  interceptors : bool
}.

Definition comma : code_unit := 44%N.
Definition is_nonempty (s : jsstring) : bool := negb (str_eqb s []).

(** [Array.isArray(config.modules) ? config.modules
      : config.modules.split(',').map(m => m.trim()).filter(m => m !== '')]. *)
Definition normalize_modules (input : ModulesInput) : list jsstring :=
  match input with
  | ModArray names => names
  | ModString text =>
      List.filter is_nonempty (map trim (split_on comma text))
  end.

Definition appModulePath (appDir : jsstring) : jsstring :=
  path_join [appDir; js "src"; js "app.module.ts"].
Definition modulesDir (appDir : jsstring) : jsstring :=
  path_join [appDir; js "src"; js "modules"].
Definition configPath (appDir : jsstring) : jsstring :=
  path_join [path_join [appDir; js "src"; js "config"]; js "database.config.ts"].
Definition interceptorsDir (appDir : jsstring) : jsstring :=
  path_join [appDir; js "src/common/interceptors"].
Definition responseInterceptorPath (appDir : jsstring) : jsstring :=
  path_join [appDir; js "src"; js "common/interceptors/response";
             js "response.interceptor.ts"].
Definition errorInterceptorPath (appDir : jsstring) : jsstring :=
  path_join [appDir; js "src"; js "common/interceptors/error";
             js "error.interceptor.ts"].

(** The command lines handed to [execPromise]. *)
Definition newAppCommand (appName : jsstring) : jsstring :=
  js "nest new " ++ appName ++ js " --package-manager npm --skip-git --skip-install".
Definition resourceCommand (moduleName : jsstring) : jsstring :=
  js "nest g resource modules/" ++ moduleName.
Definition installCommand (dependencies : list jsstring) : jsstring :=
  js "npm install " ++ join (js " ") dependencies ++ js " --save".
Definition responseInterceptorCommand : jsstring :=
  js "nest g interceptor common/interceptors/response --no-spec".
Definition errorInterceptorCommand : jsstring :=
  js "nest g interceptor common/interceptors/error --no-spec".

Section Pipeline.
Variable env : Env.

Definition generateBaseStructure (appDir : jsstring) : M unit :=
  let appName := basename appDir in
  let parentDir := dirname appDir in
  try_catch
    (execPromise env (newAppCommand appName) parentDir)
    (fun error => throw error).

Definition generateModule (appDir moduleName : jsstring) : M unit :=
  ensureDir env (modulesDir appDir) ;;
  try_catch
    (execPromise env (resourceCommand moduleName) appDir)
    (fun error => throw error).

Definition installDependencies (appDir : jsstring) (dependencies : list jsstring)
    : M unit :=
  execPromise env (installCommand dependencies) appDir.

Definition createDatabaseConfig (appDir database orm : jsstring) : M unit :=
  ensureDir env (path_join [appDir; js "src"; js "config"]) ;;
  writeFile env (configPath appDir) (configContent database orm).

Definition updateAppModuleForDatabase (appDir orm : jsstring) : M unit :=
  content <- readFile env (appModulePath appDir) ;;
  let content := prependDbImport orm content in
  let content := replace imports_pattern (dbReplacement orm) content in
  writeFile env (appModulePath appDir) content.

Definition setupDatabase (appDir database orm : jsstring) : M unit :=
  let dependencies := getDatabaseDependencies database orm in
  installDependencies appDir dependencies ;;
  createDatabaseConfig appDir database orm ;;
  updateAppModuleForDatabase appDir orm.

Definition updateResponseInterceptor (appDir : jsstring) : M unit :=
  writeFile env (responseInterceptorPath appDir) responseInterceptorContent.

Definition updateErrorInterceptor (appDir : jsstring) : M unit :=
  writeFile env (errorInterceptorPath appDir) errorInterceptorContent.

Definition updateAppModuleForInterceptors (appDir : jsstring) : M unit :=
  content <- readFile env (appModulePath appDir) ;;
  let content := prependInterceptorImport content in
  let content := replace providers_pattern providersReplacement content in
  writeFile env (appModulePath appDir) content.

Definition generateInterceptors (appDir : jsstring) : M unit :=
  ensureDir env (interceptorsDir appDir) ;;
  execPromise env responseInterceptorCommand appDir ;;
  execPromise env errorInterceptorCommand appDir ;;
  updateResponseInterceptor appDir ;;
  updateErrorInterceptor appDir ;;
  updateAppModuleForInterceptors appDir.

(** The loop of [generateApp] over the normalised modules, guarded by
    [config.modules.length > 0]. *)
Definition generateModules (appDir : jsstring) (names : list jsstring) : M unit :=
  if (0 <? length names)%nat
  then for_of names (fun module => generateModule appDir module)
  else ret tt.

Definition generateApp (appName : jsstring) (config : Config) : M unit :=
  let appDir := path_join [cwd env; appName] in
  ensureDir env appDir ;;
  generateBaseStructure appDir ;;
  let names := normalize_modules (modules config) in
  generateModules appDir names ;;
  setupDatabase appDir (database config) (orm config) ;;
  (if interceptors config then generateInterceptors appDir else ret tt).
End Pipeline.


(* ===================================================================== *)
(** * The block search, stated directly *)
(* ===================================================================== *)

(** What the patterns look for, written as a scan of the text.  The
    theorems below relate it to the matcher run on [block_pattern]. *)

Definition all_space (ws : jsstring) : Prop := Forall (fun c => is_space c = true) ws.

(** [s] is [pre] followed by a block [<keyword>: [ ... ]]: the keyword and
    a colon, the white space [ws], an opening bracket, [body], a closing
    bracket, and then [post]. *)
Definition block_at (keyword s pre ws body post : jsstring) : Prop :=
  s = pre ++ keyword ++ [colon] ++ ws ++ [lbracket] ++ body ++ [rbracket] ++ post
  /\ all_space ws.

(** [s] contains such a block somewhere. *)
Definition has_block (keyword s : jsstring) : Prop :=
  exists pre ws body post, block_at keyword s pre ws body post.

(** The block at [pre] is the first one of [s], and [body] runs up to the
    first closing bracket after its opening bracket. *)
Definition first_block_at (keyword s pre ws body post : jsstring) : Prop :=
  block_at keyword s pre ws body post
  /\ (rbracket ∉ body)
  /\ forall pre' ws' body' post',
       block_at keyword s pre' ws' body' post' -> length pre <= length pre'.

(** [out] is [s] with some text put in at one place. *)
Definition is_insertion (s out : jsstring) : bool :=
  existsb (fun n => str_eqb (take n out) (take n s)
                    && str_eqb (drop (length out - (length s - n)) out) (drop n s))
          (seq 0 (S (length s))).

(** The leading white space of [s] and what follows it. *)
Fixpoint span_space (s : jsstring) : jsstring * jsstring :=
  match s with
  | c :: s' =>
      if is_space c then let '(ws, r) := span_space s' in (c :: ws, r)
      else ([], s)
  | [] => ([], [])
  end.

(** [s] cut at its first closing bracket. *)
Fixpoint split_rbracket (s : jsstring) : option (jsstring * jsstring) :=
  match s with
  | c :: s' =>
      if cu_eqb rbracket c then Some ([], s')
      else match split_rbracket s' with
           | Some (body, post) => Some (c :: body, post)
           | None => None
           end
  | [] => None
  end.

(** A block that starts at the head of [s]: its white space, its contents
    up to the first closing bracket, and the text after that bracket. *)
Definition block_here (keyword s : jsstring)
    : option (jsstring * jsstring * jsstring) :=
  match strip_prefix (keyword ++ [colon]) s with
  | Some s1 =>
      let '(ws, s2) := span_space s1 in
      match s2 with
      | c :: s3 =>
          if cu_eqb lbracket c then
            match split_rbracket s3 with
            | Some (body, post) => Some (ws, body, post)
            | None => None
            end
          else None
      | [] => None
      end
  | None => None
  end.

(** The first block of [s], with the text in front of it. *)
Fixpoint find_block (keyword s : jsstring)
    : option (jsstring * jsstring * jsstring * jsstring) :=
  match block_here keyword s with
  | Some (ws, body, post) => Some ([], ws, body, post)
  | None =>
      match s with
      | c :: s' =>
          match find_block keyword s' with
          | Some (pre, ws, body, post) => Some (c :: pre, ws, body, post)
          | None => None
          end
      | [] => None
      end
  end.

Definition no_dollar (s : jsstring) : Prop := Forall (fun c => c <> dollar) s.

(* ===================================================================== *)
(** * Notions used to state the properties *)
(* ===================================================================== *)

(** Where the group of a block starts, for a match attempted at index [i]. *)
Definition body_start (i : nat) (keyword ws : jsstring) : nat :=
  S (i + length (keyword ++ [colon]) + length ws).

(** [compatible k p]: [p] does not rule out that [k] starts at its head,
    whatever follows [p]. *)
Fixpoint compatible (k p : jsstring) : bool :=
  match k, p with
  | [], _ => true
  | _, [] => true
  | x :: k', y :: p' => cu_eqb x y && compatible k' p'
  end.

(** [k] starts at no position of [p], whatever follows [p]. *)
Fixpoint no_start (k p : jsstring) : bool :=
  match p with
  | [] => true
  | _ :: p' => negb (compatible k p) && no_start k p'
  end.

Definition no_dollarb (s : jsstring) : bool := forallb (fun c => negb (cu_eqb c dollar)) s.

(** The text the imports patch puts in front of the closing bracket, and
    the one the providers patch does. *)
Definition dbInsertion (orm : jsstring) : jsstring :=
  js "
    " ++ dbModuleImport orm ++ js "
  ".
Definition providersInsertion : jsstring :=
  providerStatements ++ js "
  ".

(** The spawned commands of a trace, in order, with their outcome. *)
Definition calls (evs : list Event) : list (jsstring * bool) :=
  omap (fun ev => match ev with
                  | EvExec command _ ok => Some (command, ok)
                  | _ => None
                  end) evs.

Definition ok_call (name : jsstring) : jsstring * bool := (resourceCommand name, true).
Definition failed_call (name : jsstring) : jsstring * bool := (resourceCommand name, false).

(** The packages the specification names for each selection. *)
Definition orm_packages (o : Orm) : list jsstring :=
  match o with
  | TypeORM => [js "typeorm"; js "@nestjs/typeorm"]
  | Mongoose => [js "mongoose"; js "@nestjs/mongoose"]
  | Sequelize => [js "sequelize"; js "@nestjs/sequelize"; js "sequelize-typescript"]
  end.

Definition driver_package (d : Database) : jsstring :=
  match d with
  | Postgres => js "pg"
  | MongoDB => js "mongodb"
  | MySQL => js "mysql2"
  end.

(** A root module whose imports block has no space after the colon. *)
Definition compact_module_source : jsstring :=
  js "@Module({
  imports:[ConfigModule],
  providers: [AppService],
})
export class AppModule {}".

(** An environment in which every call goes through and spawned commands
    leave the files alone, and one in which a given command fails. *)
Definition permissive_env : Env :=
  mkEnv (js "/work") (fun _ _ w => (true, files w))
        (fun _ _ => true) (fun _ _ => true) (fun _ _ _ => true).

Definition failing_env (bad : jsstring) : Env :=
  mkEnv (js "/work") (fun command _ w => (negb (str_eqb command bad), files w))
        (fun _ _ => true) (fun _ _ => true) (fun _ _ _ => true).

(** A root module without an imports or a providers array. *)
Definition bare_module_source : jsstring :=
  js "@Module({})
export class AppModule {}".

Definition bare_world : World :=
  mkWorld {[ appModulePath (js "/work/shop") := bare_module_source ]} [].

Definition compact_world : World :=
  mkWorld {[ appModulePath (js "/work/shop") := compact_module_source ]} [].

(** A read of the root module followed by a write of [patch content]: the
    shape of both mutation steps. *)
Definition rewrite_run (env : Env) (appDir : jsstring) (patch : jsstring -> jsstring)
    (w : World) : Result unit * World :=
  let path := appModulePath appDir in
  match (if read_ok env path w then files w !! path else None) with
  | Some content =>
      if write_ok env path (patch content) (log (EvReadFile path true) w) then
        (Ok tt, mkWorld (<[path := patch content]> (files w))
                  (trace w ++ [EvReadFile path true;
                               EvWriteFile path (patch content) true]))
      else
        (Err (FsError path),
         mkWorld (files w)
           (trace w ++ [EvReadFile path true;
                        EvWriteFile path (patch content) false]))
  | None => (Err (FsError path), log (EvReadFile path false) w)
  end.

(** Every event [m] adds to the trace satisfies [P]. *)
Definition emits {A} (P : Event -> Prop) (m : M A) : Prop :=
  forall w, exists evs, trace (m w).2 = trace w ++ evs /\ Forall P evs.




(** The contents successfully written to the root module during [evs]. *)
Fixpoint root_writes (appDir : jsstring) (evs : list Event) : list jsstring :=
  match evs with
  | [] => []
  | EvWriteFile path content true :: evs' =>
      if str_eqb path (appModulePath appDir)
      then content :: root_writes appDir evs'
      else root_writes appDir evs'
  | _ :: evs' => root_writes appDir evs'
  end.

Definition is_write (ev : Event) : bool :=
  match ev with EvWriteFile _ _ _ => true | _ => false end.

(* ===================================================================== *)
(** * Notions used to state properties of whole runs *)
(* ===================================================================== *)

(** Whether the effect went through, and the rejection it causes when it
    did not. *)
Definition ev_ok (ev : Event) : bool :=
  match ev with
  | EvEnsureDir _ ok | EvExec _ _ ok | EvReadFile _ ok | EvWriteFile _ _ ok => ok
  end.

Definition error_of (ev : Event) : Error :=
  match ev with
  | EvExec command dir _ => ExecError command dir
  | EvEnsureDir path _ | EvReadFile path _ | EvWriteFile path _ _ => FsError path
  end.

(** [m] stops at the first effect that fails: a run that succeeds has only
    issued effects that went through, and a run that fails ends with the
    one effect that did not, whose error it reports. *)
Definition stops_at_failure {A} (m : M A) : Prop :=
  forall w, exists evs,
    trace (m w).2 = trace w ++ evs
    /\ match (m w).1 with
       | Ok _ => Forall (fun ev => ev_ok ev = true) evs
       | Err e =>
           exists evs0 ev,
             evs = evs0 ++ [ev]
             /\ Forall (fun ev => ev_ok ev = true) evs0
             /\ ev_ok ev = false
             /\ e = error_of ev
       end.

Definition succeeded (command : jsstring) : jsstring * bool := (command, true).

(** [l] is the record of the commands of a prefix of [script], all
    succeeded but possibly the last. *)
Definition call_prefix (script : list jsstring) (l : list (jsstring * bool)) : Prop :=
  exists n,
    n <= length script
    /\ (l = map succeeded (take n script)
        \/ exists command,
             script !! n = Some command
             /\ l = map succeeded (take n script) ++ [(command, false)]).

(** [m] spawns the commands of [script], in that order: all of them when it
    succeeds, and when it fails those of a prefix, of which only the last
    one can have failed. *)
Definition call_script {A} (script : list jsstring) (m : M A) : Prop :=
  forall w, exists evs,
    trace (m w).2 = trace w ++ evs
    /\ match (m w).1 with
       | Ok _ => calls evs = map succeeded script
       | Err _ => call_prefix script (calls evs)
       end.

(** The commands of a whole run of [generateApp] for a plain application
    name, in order. *)
Definition appCommands (appName : jsstring) (config : Config) : list jsstring :=
  [newAppCommand appName]
  ++ map resourceCommand (normalize_modules (modules config))
  ++ [installCommand (getDatabaseDependencies (database config) (orm config))]
  ++ (if interceptors config
      then [responseInterceptorCommand; errorInterceptorCommand] else []).

(** The effects [generateApp] may issue for a plain application name and
    a configuration: the directories it ensures, the commands it spawns with
    their working directory, the one file it reads, and the files it
    writes, with their contents where they are fixed. *)
Definition allowed_event (env : Env) (appName : jsstring) (config : Config)
    (ev : Event) : Prop :=
  let appDir := path_join [cwd env; appName] in
  match ev with
  | EvEnsureDir path _ =>
      path = appDir
      \/ path = modulesDir appDir
      \/ path = path_join [appDir; js "src"; js "config"]
      \/ (interceptors config = true /\ path = interceptorsDir appDir)
  | EvExec command dir _ =>
      (command = newAppCommand appName /\ dir = cwd env)
      \/ (dir = appDir
          /\ (command = installCommand
                          (getDatabaseDependencies (database config) (orm config))
              \/ (exists name,
                    name ∈ normalize_modules (modules config)
                    /\ command = resourceCommand name)
              \/ (interceptors config = true
                  /\ (command = responseInterceptorCommand
                      \/ command = errorInterceptorCommand))))
  | EvReadFile path _ => path = appModulePath appDir
  | EvWriteFile path content _ =>
      (path = configPath appDir
       /\ content = configContent (database config) (orm config))
      \/ path = appModulePath appDir
      \/ (interceptors config = true
          /\ ((path = responseInterceptorPath appDir
               /\ content = responseInterceptorContent)
              \/ (path = errorInterceptorPath appDir
                  /\ content = errorInterceptorContent)))
  end.

(** A project directory in which the root module is missing. *)
Definition empty_world : World := mkWorld ∅ [].

(** The block patches alone, without the import statement put in front. *)
Definition patchImportsBlock (orm s : jsstring) : jsstring :=
  replace imports_pattern (dbReplacement orm) s.
Definition patchProvidersBlock (s : jsstring) : jsstring :=
  replace providers_pattern providersReplacement s.

Definition space : code_unit := 32%N.

(** The [filter] of the modules question of the [create] command:
    [input.split(',').map(module => module.trim()).filter(module => module !== '')]. *)
Definition modulesFilter (input : jsstring) : list jsstring :=
  List.filter is_nonempty (map trim (split_on comma input)).

(** A keyword that is not empty and has no white space, opening bracket or
    colon in it, as [imports] and [providers]. *)
Definition plain_keyword (keyword : jsstring) : bool :=
  negb (str_eqb keyword [])
  && forallb (fun c => negb (is_space c) && negb (cu_eqb c lbracket)
                       && negb (cu_eqb c colon)) keyword.

(** [x] can follow a keyword and its colon to make a block: white space,
    an opening bracket and, somewhere after it, a closing bracket. *)
Definition completes_block (x : jsstring) : Prop :=
  exists ws body post,
    x = ws ++ [lbracket] ++ body ++ [rbracket] ++ post /\ all_space ws.

(** An application name that is one plain path segment: for such a name
    the path functions above compute what Node's do. *)
Definition plain_name (appName : jsstring) : Prop :=
  (slash ∉ appName) /\ appName <> [] /\ appName <> js "." /\ appName <> js "..".

(** An absolute path in normal form other than the root: a [/] and a
    plain name, once or more.  [process.cwd()] returns such a path. *)
Definition absolute_path (dir : jsstring) : Prop :=
  exists segments,
    segments <> []
    /\ Forall plain_name segments
    /\ dir = concat (map (fun segment => slash :: segment) segments).

(** The environment lets every directory and every spawned command
    through. *)
Definition lets_through (env : Env) : Prop :=
  (forall path w, dir_ok env path w = true)
  /\ (forall command dir w, (spawn env command dir w).1 = true).

(** The events of the loop for modules that were all generated. *)
Fixpoint module_events (appDir : jsstring) (names : list jsstring) : list Event :=
  match names with
  | [] => []
  | name :: names' =>
      EvEnsureDir (modulesDir appDir) true
      :: EvExec (resourceCommand name) appDir true
      :: module_events appDir names'
  end.

(** The root module as the two interceptor commands leave it, when the
    interceptors directory was ensured and the first command succeeded. *)
(** The world in which the loop reaches the module that follows [names],
    when both calls of every module of [names] went through. *)
Fixpoint after_modules (env : Env) (appDir : jsstring) (names : list jsstring)
    (w : World) : World :=
  match names with
  | [] => w
  | name :: names' =>
      let dir := modulesDir appDir in
      after_modules env appDir names'
        (mkWorld
           (spawn env (resourceCommand name) appDir (log (EvEnsureDir dir true) w)).2
           (trace w ++ [EvEnsureDir dir true; EvExec (resourceCommand name) appDir true]))
  end.

(** What the environment answers to the two calls of one iteration. *)
Definition module_goes_through (env : Env) (appDir name : jsstring) (w : World) : bool :=
  dir_ok env (modulesDir appDir) w
  && (spawn env (resourceCommand name) appDir
        (log (EvEnsureDir (modulesDir appDir) true) w)).1.

Definition rootAfterInterceptorCommands (env : Env) (appDir : jsstring) (w : World)
    : option jsstring :=
  let w1 := log (EvEnsureDir (interceptorsDir appDir) true) w in
  let w2 := mkWorld (spawn env responseInterceptorCommand appDir w1).2
              (trace w1 ++ [EvExec responseInterceptorCommand appDir true]) in
  (spawn env errorInterceptorCommand appDir w2).2 !! appModulePath appDir.

(* ===================================================================== *)
(** * Lemmas on strings *)
(* ===================================================================== *)

Lemma cu_eqb_eq (a b : code_unit) : cu_eqb a b = true <-> a = b.
Proof. apply N.eqb_eq. Qed.

Lemma cu_eqb_refl (a : code_unit) : cu_eqb a a = true.
Proof. apply N.eqb_refl. Qed.

Lemma cu_eqb_neq (a b : code_unit) : cu_eqb a b = false <-> a <> b.
Proof. apply N.eqb_neq. Qed.

Lemma str_eqb_eq (a b : jsstring) : str_eqb a b = true <-> a = b.
Proof.
  revert b. induction a as [|x a IH]; intros [|y b]; simpl; try (split; congruence).
  rewrite andb_true_iff, cu_eqb_eq, IH. split.
  - intros [-> ->]. reflexivity.
  - intros H. injection H. auto.
Qed.

Lemma str_eqb_neq (a b : jsstring) : a <> b -> str_eqb a b = false.
Proof.
  intros H. destruct (str_eqb a b) eqn:E; [|reflexivity].
  apply str_eqb_eq in E. contradiction.
Qed.

Lemma strip_prefix_app (p s : jsstring) : strip_prefix p (p ++ s) = Some s.
Proof. induction p as [|x p IH]; simpl; [reflexivity|]. rewrite cu_eqb_refl. exact IH. Qed.

Lemma strip_prefix_Some (p s s' : jsstring) :
  strip_prefix p s = Some s' -> s = p ++ s'.
Proof.
  revert s. induction p as [|x p IH]; intros s; simpl.
  - intros [= ->]. reflexivity.
  - destruct s as [|y s]; [discriminate|].
    destruct (cu_eqb x y) eqn:E; [|discriminate].
    apply cu_eqb_eq in E. subst y. intros H. f_equal. apply IH, H.
Qed.

Lemma starts_with_app (p s : jsstring) : starts_with p (p ++ s) = true.
Proof. unfold starts_with. rewrite strip_prefix_app. reflexivity. Qed.

Lemma starts_with_true (p s : jsstring) :
  starts_with p s = true -> exists s', s = p ++ s'.
Proof.
  unfold starts_with. destruct (strip_prefix p s) as [s'|] eqn:E; [|discriminate].
  intros _. exists s'. apply strip_prefix_Some, E.
Qed.

Lemma includes_true (p s : jsstring) :
  includes p s = true <-> exists a b, s = a ++ p ++ b.
Proof.
  split.
  - induction s as [|c s IH]; simpl; rewrite orb_true_iff.
    + intros [H|H]; [|discriminate].
      apply starts_with_true in H as [s' ->]. exists [], s'. reflexivity.
    + intros [H|H].
      * apply starts_with_true in H as [s' ->]. exists [], s'. reflexivity.
      * destruct (IH H) as (a & b & ->). exists (c :: a), b. reflexivity.
  - intros (a & b & ->). induction a as [|c a IH].
    + simpl. destruct (p ++ b) eqn:E; simpl; rewrite <- E, starts_with_app; reflexivity.
    + simpl. rewrite IH. apply orb_true_r.
Qed.

Lemma includes_false (p s a b : jsstring) :
  includes p s = false -> s <> a ++ p ++ b.
Proof.
  intros H ->. assert (includes p (a ++ p ++ b) = true) as E.
  { apply includes_true. eauto. }
  congruence.
Qed.

Lemma span_space_spec (s ws r : jsstring) :
  span_space s = (ws, r) ->
  s = ws ++ r /\ all_space ws /\ (forall c r', r = c :: r' -> is_space c = false).
Proof.
  revert ws r. induction s as [|c s IH]; intros ws r; simpl.
  - intros [= <- <-]. repeat split; [constructor | discriminate].
  - destruct (is_space c) eqn:E.
    + destruct (span_space s) as [ws' r0]. intros [= <- <-].
      destruct (IH _ _ eq_refl) as (-> & Hws & Hr).
      repeat split; [constructor; assumption | exact Hr].
    + intros [= <- <-]. repeat split; [constructor|].
      intros c' r' [= <- <-]. exact E.
Qed.

Lemma span_space_app (ws r : jsstring) :
  all_space ws -> (forall c r', r = c :: r' -> is_space c = false) ->
  span_space (ws ++ r) = (ws, r).
Proof.
  intros Hws Hr. induction Hws as [|c ws Hc _ IH]; simpl.
  - destruct r as [|c r']; simpl; [reflexivity|]. rewrite (Hr c r' eq_refl). reflexivity.
  - rewrite Hc, IH. reflexivity.
Qed.

Lemma split_rbracket_Some (s body post : jsstring) :
  split_rbracket s = Some (body, post) ->
  s = body ++ [rbracket] ++ post /\ rbracket ∉ body.
Proof.
  revert body. induction s as [|c s IH]; intros body; simpl; [discriminate|].
  destruct (cu_eqb rbracket c) eqn:E.
  - apply cu_eqb_eq in E. subst c. intros [= <- <-]. split; [reflexivity|].
    apply not_elem_of_nil.
  - destruct (split_rbracket s) as [[b p']|]; [|discriminate].
    intros [= <- <-]. destruct (IH _ eq_refl) as [-> Hn]. split; [reflexivity|].
    apply cu_eqb_neq in E. rewrite elem_of_cons. intros [?|?]; congruence.
Qed.

Lemma split_rbracket_app (body post : jsstring) :
  exists body' post', split_rbracket (body ++ [rbracket] ++ post) = Some (body', post').
Proof.
  induction body as [|c body IH]; simpl in *.
  - rewrite ?cu_eqb_refl. eauto.
  - destruct (cu_eqb rbracket c); [eauto|].
    destruct IH as (b & p' & ->). eauto.
Qed.

Lemma split_rbracket_first (body post : jsstring) :
  rbracket ∉ body ->
  split_rbracket (body ++ [rbracket] ++ post) = Some (body, post).
Proof.
  induction body as [|c body IH]; simpl in *; intros Hn.
  { rewrite ?cu_eqb_refl. reflexivity. }
  rewrite not_elem_of_cons in Hn. destruct Hn as [Hc Hn].
  assert (cu_eqb rbracket c = false) as -> by (apply cu_eqb_neq; congruence).
  rewrite IH by assumption. reflexivity.
Qed.

(* ===================================================================== *)
(** * The block search is sound and complete *)
(* ===================================================================== *)

Lemma lbracket_not_space : is_space lbracket = false.
Proof. reflexivity. Qed.

Lemma block_here_Some (keyword s ws body post : jsstring) :
  block_here keyword s = Some (ws, body, post) ->
  s = keyword ++ [colon] ++ ws ++ [lbracket] ++ body ++ [rbracket] ++ post
  /\ all_space ws /\ rbracket ∉ body.
Proof.
  unfold block_here.
  destruct (strip_prefix (keyword ++ [colon]) s) as [s1|] eqn:E1; [|discriminate].
  apply strip_prefix_Some in E1.
  destruct (span_space s1) as [ws0 s2] eqn:E2.
  apply span_space_spec in E2 as (-> & Hws & _).
  destruct s2 as [|c s3]; [discriminate|].
  destruct (cu_eqb lbracket c) eqn:E3; [|discriminate].
  apply cu_eqb_eq in E3. subst c.
  destruct (split_rbracket s3) as [[b p']|] eqn:E4; [|discriminate].
  apply split_rbracket_Some in E4 as [-> Hn].
  intros [= <- <- <-]. subst s. rewrite <- !app_assoc. auto.
Qed.

Lemma block_here_app (keyword ws body post : jsstring) :
  all_space ws ->
  exists body' post',
    block_here keyword
      (keyword ++ [colon] ++ ws ++ [lbracket] ++ body ++ [rbracket] ++ post)
    = Some (ws, body', post').
Proof.
  intros Hws. unfold block_here.
  rewrite (app_assoc keyword [colon]), strip_prefix_app.
  rewrite (span_space_app ws).
  - simpl. rewrite ?cu_eqb_refl.
    destruct (split_rbracket_app body post) as (b & p' & E).
    simpl in E. rewrite E. eauto.
  - exact Hws.
  - simpl. intros c r' [= <- <-]. exact lbracket_not_space.
Qed.

Lemma find_block_Some (keyword s pre ws body post : jsstring) :
  find_block keyword s = Some (pre, ws, body, post) ->
  s = pre ++ keyword ++ [colon] ++ ws ++ [lbracket] ++ body ++ [rbracket] ++ post
  /\ all_space ws /\ rbracket ∉ body.
Proof.
  revert pre. induction s as [|c s IH]; intros pre; simpl.
  - destruct (block_here keyword []) as [[[w b] p']|] eqn:E; [|discriminate].
    intros [= <- <- <- <-]. apply block_here_Some in E. exact E.
  - destruct (block_here keyword (c :: s)) as [[[w b] p']|] eqn:E.
    + intros [= <- <- <- <-]. apply block_here_Some in E. exact E.
    + destruct (find_block keyword s) as [[[[pre0 w] b] p']|]; [|discriminate].
      intros [= <- <- <- <-].
      destruct (IH _ eq_refl) as (-> & Hws & Hn). auto.
Qed.

(** No block starts in front of the one [find_block] returns. *)
Lemma find_block_first (keyword s pre ws body post : jsstring) :
  find_block keyword s = Some (pre, ws, body, post) ->
  forall pre' ws' body' post',
    s = pre' ++ keyword ++ [colon] ++ ws' ++ [lbracket] ++ body' ++ [rbracket] ++ post' ->
    all_space ws' ->
    length pre <= length pre'.
Proof.
  revert pre. induction s as [|c s IH]; intros pre; simpl.
  - destruct (block_here keyword []) as [[[w b] p']|]; [|discriminate].
    intros [= <- <- <- <-]. intros. simpl. lia.
  - destruct (block_here keyword (c :: s)) as [[[w b] p']|] eqn:E.
    + intros [= <- <- <- <-]. intros. simpl. lia.
    + destruct (find_block keyword s) as [[[[pre0 w] b] p']|]; [|discriminate].
      intros [= <- <- <- <-] pre' ws' body' post' Hs Hws'.
      destruct pre' as [|c' pre'].
      * simpl in Hs. rewrite Hs in E.
        destruct (block_here_app keyword ws' body' post' Hws') as (? & ? & E').
        simpl in E'. congruence.
      * injection Hs as -> Hs. simpl.
        specialize (IH _ eq_refl _ _ _ _ Hs Hws'). lia.
Qed.

Lemma find_block_here (keyword s ws body post : jsstring) :
  block_here keyword s = Some (ws, body, post) ->
  find_block keyword s = Some ([], ws, body, post).
Proof. intros E. destruct s; simpl; rewrite E; reflexivity. Qed.

Lemma find_block_complete (keyword s : jsstring) :
  has_block keyword s -> is_Some (find_block keyword s).
Proof.
  intros (pre & ws & body & post & -> & Hws).
  induction pre as [|c pre IH].
  - destruct (block_here_app keyword ws body post Hws) as (b & p' & E).
    rewrite app_nil_l, (find_block_here _ _ _ _ _ E). eauto.
  - simpl in IH |- *. destruct (block_here keyword _) as [[[w b] p']|]; [eauto|].
    destruct IH as [[[[pre0 w] b] p'] ->]. eauto.
Qed.

Lemma find_block_None (keyword s : jsstring) :
  find_block keyword s = None <-> ~ has_block keyword s.
Proof.
  split.
  - intros E H. apply find_block_complete in H as [x Hx]. congruence.
  - intros H. destruct (find_block keyword s) as [[[[pre w] b] p']|] eqn:E; [|reflexivity].
    exfalso. apply H. apply find_block_Some in E as (-> & Hws & _).
    exists pre, w, b, p'. split; [reflexivity | assumption].
Qed.

(* ===================================================================== *)
(** * The matcher on the block pattern *)
(* ===================================================================== *)

Lemma ngroups_rlit (l : jsstring) : ngroups (rlit l) = 0.
Proof. induction l as [|c l IH]; simpl; [reflexivity | exact IH]. Qed.

Lemma ngroups_block_pattern (keyword : jsstring) : ngroups (block_pattern keyword) = 1.
Proof. unfold block_pattern. simpl. rewrite ngroups_rlit. reflexivity. Qed.

(** A literal run consumes exactly itself. *)
Lemma rmatch_rlit (l : jsstring) (x : MatchState) (k : Continuation) :
  rmatch (rlit l) x k =
  match strip_prefix l (rest x) with
  | Some s' => k (mkState (endIndex x + length l) s' (captures x))
  | None => None
  end.
Proof.
  revert x. induction l as [|c l IH]; intros [e s caps]; simpl.
  - rewrite Nat.add_0_r. reflexivity.
  - destruct s as [|c0 s]; [reflexivity|].
    destruct (cu_eqb c c0); [|reflexivity].
    rewrite IH. simpl. rewrite Nat.add_succ_r. reflexivity.
Qed.

(** Greedy white space in front of something that no white space starts:
    giving characters back never helps, so all of it is consumed. *)
Lemma repeat_greedy_space (k : Continuation) :
  (forall e c s caps, is_space c = true -> k (mkState e (c :: s) caps) = None) ->
  forall s e caps,
    repeat_greedy CsSpace k caps e s =
    k (mkState (e + length (span_space s).1) (span_space s).2 caps).
Proof.
  intros Hk s. induction s as [|c s IH]; intros e caps; simpl.
  - rewrite Nat.add_0_r. reflexivity.
  - destruct (is_space c) eqn:E.
    + rewrite IH. destruct (span_space s) as [ws r]. simpl.
      rewrite Nat.add_succ_r.
      destruct (k _) eqn:Ek; [reflexivity|]. apply Hk, E.
    + simpl. rewrite Nat.add_0_r. reflexivity.
Qed.

(** The lazy group in front of a closing bracket stops at the first one. *)
Lemma repeat_lazy_any (e0 : nat) (s : jsstring) :
  forall e caps,
    repeat_lazy (CsUnion CsSpace CsNonSpace)
      (fun y => rmatch (RAtom (CsChar rbracket))
                  (mkState (endIndex y) (rest y)
                     (<[1 := (e0, endIndex y)]> (captures y))) Some)
      caps e s =
    match split_rbracket s with
    | Some (body, post) =>
        Some (mkState (S (e + length body)) post (<[1 := (e0, e + length body)]> caps))
    | None => None
    end.
Proof.
  induction s as [|c s IH]; intros e caps; simpl; [reflexivity|].
  destruct (cu_eqb rbracket c).
  - simpl. rewrite Nat.add_0_r. reflexivity.
  - assert (is_space c || negb (is_space c) = true) as -> by (destruct (is_space c); reflexivity).
    rewrite IH. destruct (split_rbracket s) as [[b p']|]; [|reflexivity].
    simpl. rewrite Nat.add_succ_r. reflexivity.
Qed.

(** The matcher run on [block_pattern] at one index finds a block exactly
    when [block_here] does, and captures its contents. *)
Lemma rmatch_block_pattern (keyword s : jsstring) (i : nat) (caps : gmap nat (nat * nat)) :
  rmatch (block_pattern keyword) (mkState i s caps) Some =
  match block_here keyword s with
  | Some (ws, body, post) =>
      let b := body_start i keyword ws in
      Some (mkState (S (b + length body)) post (<[1 := (b, b + length body)]> caps))
  | None => None
  end.
Proof.
  unfold block_pattern, block_here, body_start.
  cbn [rmatch]. rewrite rmatch_rlit. cbn [rest endIndex captures].
  destruct (strip_prefix (keyword ++ [colon]) s) as [s1|]; [|reflexivity].
  rewrite repeat_greedy_space.
  - destruct (span_space s1) as [ws s2]. cbn [fst snd rmatch rest endIndex captures].
    destruct s2 as [|c s3]; [reflexivity|].
    cbn [cs_match]. destruct (cu_eqb lbracket c); [|reflexivity].
    rewrite (repeat_lazy_any (S (i + length (keyword ++ [colon]) + length ws)) s3).
    destruct (split_rbracket s3) as [[b p']|]; reflexivity.
  - intros e c s' caps' Hc. cbn [rmatch rest cs_match].
    destruct (cu_eqb lbracket c) eqn:E; [|reflexivity].
    apply cu_eqb_eq in E. subst c. rewrite lbracket_not_space in Hc. discriminate.
Qed.

(** [exec] returns the first block of the text. *)
Lemma exec_from_block_pattern (keyword s : jsstring) (i : nat) :
  exec_from (block_pattern keyword) i s =
  match find_block keyword s with
  | Some (pre, ws, body, post) =>
      let b := body_start (i + length pre) keyword ws in
      Some (mkResult (i + length pre) (S (b + length body))
              (<[1 := (b, b + length body)]> ∅))
  | None => None
  end.
Proof.
  revert i. induction s as [|c s IH]; intros i.
  - cbn [exec_from find_block]. rewrite rmatch_block_pattern.
    destruct (block_here keyword []) as [[[w b] p']|]; [|reflexivity].
    cbn. rewrite Nat.add_0_r. reflexivity.
  - cbn [exec_from find_block]. rewrite rmatch_block_pattern.
    destruct (block_here keyword (c :: s)) as [[[w b] p']|].
    + cbn. rewrite Nat.add_0_r. reflexivity.
    + rewrite IH. destruct (find_block keyword s) as [[[[pre w] b] p']|]; [|reflexivity].
      cbn [length]. rewrite Nat.add_succ_r. reflexivity.
Qed.

(* ===================================================================== *)
(** * The replacement text *)
(* ===================================================================== *)

Section SubstitutionLemmas.
Variables (matched before after : jsstring) (m : nat) (capture : nat -> jsstring).

#[local] Abbreviation gs := (get_substitution matched before after m capture).

(** Text without [$] stands for itself. *)
Lemma get_substitution_app (a t : jsstring) :
  no_dollar a -> gs (a ++ t) = a ++ gs t.
Proof.
  intros Ha. induction Ha as [|c a Hc _ IH]; [reflexivity|].
  simpl. unfold dollar in Hc.
  apply N.eqb_neq in Hc. rewrite Hc. simpl. rewrite IH. reflexivity.
Qed.

Lemma get_substitution_plain (a : jsstring) : no_dollar a -> gs a = a.
Proof.
  intros Ha. rewrite <- (app_nil_r a) at 1. rewrite get_substitution_app by assumption.
  simpl. apply app_nil_r.
Qed.

(** [$1] in a pattern with one group stands for that group, also when a
    digit follows. *)
Lemma get_substitution_group1 (t : jsstring) :
  m = 1 -> gs (dollar :: 49%N :: t) = capture 1 ++ gs t.
Proof.
  intros ->. cbn [get_substitution].
  change (negb (dollar =? 36)%N) with false. cbv iota.
  change ((49 =? 36)%N) with false. change ((49 =? 38)%N) with false.
  change ((49 =? 96)%N) with false. change ((49 =? 39)%N) with false.
  change (is_digit 49%N) with true. cbv iota zeta.
  change (digit_value 49) with 1. change (group_ref 1 1) with true. cbv iota.
  destruct t as [|d' t'']; [reflexivity|].
  assert (group_ref 1 (10 * 1 + digit_value d') = false) as ->.
  { unfold group_ref. apply andb_false_iff. right. apply Nat.leb_gt. lia. }
  rewrite andb_false_r. reflexivity.
Qed.
End SubstitutionLemmas.

(** The three pieces [replace] cuts the input into around a block. *)
Lemma block_indices (pre kwc ws body post : jsstring) :
  let s := pre ++ kwc ++ ws ++ [lbracket] ++ body ++ [rbracket] ++ post in
  let b := S (length pre + length kwc + length ws) in
  take (length pre) s = pre
  /\ substring b (b + length body) s = body
  /\ drop (S (b + length body)) s = post.
Proof.
  intros s b. split; [|split].
  - subst s. apply take_app_length.
  - unfold substring.
    replace s with ((pre ++ kwc ++ ws ++ [lbracket]) ++ body ++ [rbracket] ++ post)
      by (subst s; rewrite <- !app_assoc; reflexivity).
    rewrite drop_app_length'.
    + replace (b + length body - b) with (length body) by lia. apply take_app_length.
    + subst b. rewrite !length_app. simpl. lia.
  - replace s with ((pre ++ kwc ++ ws ++ [lbracket] ++ body ++ [rbracket]) ++ post)
      by (subst s; rewrite <- !app_assoc; reflexivity).
    apply drop_app_length'. subst b. rewrite !length_app. simpl. lia.
Qed.

(** [replace] on a block pattern, with a replacement text made of the
    keyword, [: [], the group and a tail without [$]: the text in front of
    the first block and after it stays, and the block is rebuilt from the
    keyword, a colon, one space, the bracket, its old contents and the
    tail.  Without a block the text is returned as it is. *)
Theorem replace_block_pattern (keyword tail s : jsstring) :
  no_dollar keyword -> no_dollar tail ->
  replace (block_pattern keyword)
    ((keyword ++ js ": [") ++ [dollar; 49%N] ++ tail) s =
  match find_block keyword s with
  | Some (pre, ws, body, post) =>
      pre ++ (keyword ++ js ": [") ++ body ++ tail ++ post
  | None => s
  end.
Proof.
  intros Hk Ht. unfold replace, exec. rewrite exec_from_block_pattern.
  destruct (find_block keyword s) as [[[[pre ws] body] post]|] eqn:E; [|reflexivity].
  apply find_block_Some in E as (Hs & _ & _).
  cbn [index lastIndex groups]. rewrite ngroups_block_pattern.
  unfold body_start. rewrite Nat.add_0_l.
  rewrite (app_assoc keyword [colon]) in Hs.
  destruct (block_indices pre (keyword ++ [colon]) ws body post) as (H1 & H2 & H3).
  cbv zeta in H1, H2, H3. rewrite <- Hs in H1, H2, H3.
  rewrite H1, H3.
  rewrite get_substitution_app.
  2:{ apply Forall_app. split; [exact Hk|]. repeat constructor; discriminate. }
  cbn [app]. rewrite get_substitution_group1 by reflexivity.
  rewrite lookup_insert_eq, H2.
  rewrite get_substitution_plain by exact Ht.
  rewrite <- !app_assoc. reflexivity.
Qed.

Lemma replace_without_block (keyword template s : jsstring) :
  ~ has_block keyword s -> replace (block_pattern keyword) template s = s.
Proof.
  intros H. apply find_block_None in H.
  unfold replace, exec. rewrite exec_from_block_pattern, H. reflexivity.
Qed.

(** ** Text put in front of the source *)

Lemma compatible_false (k p s : jsstring) :
  compatible k p = false -> strip_prefix k (p ++ s) = None.
Proof.
  revert p. induction k as [|x k IH]; intros [|y p]; simpl; try discriminate.
  destruct (cu_eqb x y); simpl; [apply IH | reflexivity].
Qed.

Lemma find_block_skip (keyword p s : jsstring) :
  no_start (keyword ++ [colon]) p = true ->
  find_block keyword (p ++ s) =
  match find_block keyword s with
  | Some (pre, ws, body, post) => Some (p ++ pre, ws, body, post)
  | None => None
  end.
Proof.
  induction p as [|c p IH]; intros H.
  - simpl. destruct (find_block keyword s) as [[[[pre w] b] p']|]; reflexivity.
  - cbn [no_start] in H. apply andb_true_iff in H as [H1 H2].
    apply negb_true_iff in H1.
    change ((c :: p) ++ s) with (c :: p ++ s). cbn [find_block].
    unfold block_here at 1.
    change (c :: p ++ s) with ((c :: p) ++ s) at 1.
    rewrite (compatible_false _ _ s H1), (IH H2).
    destruct (find_block keyword s) as [[[[pre w] b] p']|]; reflexivity.
Qed.

Lemma has_block_skip (keyword p s : jsstring) :
  no_start (keyword ++ [colon]) p = true ->
  has_block keyword (p ++ s) <-> has_block keyword s.
Proof.
  intros H. pose proof (find_block_skip keyword p s H) as E.
  split; intros Hb.
  - apply find_block_complete in Hb as [x Hx]. rewrite Hx in E.
    destruct (find_block keyword s) as [[[[pre w] b] p']|] eqn:E'; [|discriminate].
    apply find_block_Some in E' as (-> & Hws & _). exists pre, w, b, p'.
    split; [reflexivity | assumption].
  - destruct Hb as (pre & ws & body & post & -> & Hws).
    exists (p ++ pre), ws, body, post.
    split; [apply app_assoc | assumption].
Qed.

(** ** The two patches of the program *)

Lemma no_dollarb_true (s : jsstring) : no_dollarb s = true -> no_dollar s.
Proof.
  unfold no_dollarb, no_dollar. rewrite forallb_forall, Forall_forall.
  intros H c Hc. apply list_elem_of_In in Hc. specialize (H c Hc).
  apply negb_true_iff, cu_eqb_neq in H. exact H.
Qed.

(** An ORM name selects one of four cases in the [switch] statements. *)
Lemma orm_cases (P : jsstring -> Prop) (orm : jsstring) :
  (orm = js "TypeORM" -> P orm) -> (orm = js "Mongoose" -> P orm) ->
  (orm = js "Sequelize" -> P orm) ->
  (str_eqb orm (js "TypeORM") = false -> str_eqb orm (js "Mongoose") = false ->
   str_eqb orm (js "Sequelize") = false -> P orm) ->
  P orm.
Proof.
  intros H1 H2 H3 H4.
  destruct (str_eqb orm (js "TypeORM")) eqn:E1; [apply H1, str_eqb_eq, E1|].
  destruct (str_eqb orm (js "Mongoose")) eqn:E2; [apply H2, str_eqb_eq, E2|].
  destruct (str_eqb orm (js "Sequelize")) eqn:E3; [apply H3, str_eqb_eq, E3|].
  apply H4; reflexivity.
Qed.

Lemma dbModuleImport_no_dollar (orm : jsstring) : no_dollarb (dbModuleImport orm) = true.
Proof.
  apply (orm_cases (fun o => no_dollarb (dbModuleImport o) = true)).
  - intros ->. reflexivity.
  - intros ->. reflexivity.
  - intros ->. reflexivity.
  - intros E1 E2 E3. unfold dbModuleImport. rewrite E1, E2, E3. reflexivity.
Qed.

Lemma dbImportStatement_no_start (orm : jsstring) :
  no_start (js "imports" ++ [colon]) (dbImportStatement orm ++ [newline]) = true.
Proof.
  apply (orm_cases (fun o => no_start _ (dbImportStatement o ++ [newline]) = true)).
  - intros ->. vm_compute. reflexivity.
  - intros ->. vm_compute. reflexivity.
  - intros ->. vm_compute. reflexivity.
  - intros E1 E2 E3. unfold dbImportStatement. rewrite E1, E2, E3. reflexivity.
Qed.

Lemma replace_imports (orm s : jsstring) :
  replace imports_pattern (dbReplacement orm) s =
  match find_block (js "imports") s with
  | Some (pre, ws, body, post) =>
      pre ++ js "imports: [" ++ body ++ dbInsertion orm ++ [rbracket] ++ post
  | None => s
  end.
Proof.
  unfold imports_pattern.
  assert (dbReplacement orm =
    (js "imports" ++ js ": [") ++ [dollar; 49%N] ++ dbInsertion orm ++ [rbracket]) as ->.
  { unfold dbReplacement, dbInsertion. rewrite <- !app_assoc. reflexivity. }
  rewrite replace_block_pattern.
  - destruct (find_block (js "imports") s) as [[[[pre w] b] p']|]; [|reflexivity].
    rewrite <- !app_assoc. reflexivity.
  - apply no_dollarb_true. reflexivity.
  - unfold dbInsertion. repeat (apply Forall_app; split).
    + apply no_dollarb_true. reflexivity.
    + apply no_dollarb_true, dbModuleImport_no_dollar.
    + apply no_dollarb_true. reflexivity.
    + apply no_dollarb_true. reflexivity.
Qed.

Lemma replace_providers (s : jsstring) :
  replace providers_pattern providersReplacement s =
  match find_block (js "providers") s with
  | Some (pre, ws, body, post) =>
      pre ++ js "providers: [" ++ body ++ providersInsertion ++ [rbracket] ++ post
  | None => s
  end.
Proof.
  unfold providers_pattern.
  change providersReplacement with
    ((js "providers" ++ js ": [") ++ [dollar; 49%N] ++ providersInsertion ++ [rbracket]).
  rewrite replace_block_pattern.
  - destruct (find_block (js "providers") s) as [[[[pre w] b] p']|]; [|reflexivity].
    rewrite <- !app_assoc. reflexivity.
  - apply no_dollarb_true. reflexivity.
  - apply no_dollarb_true. vm_compute. reflexivity.
Qed.

(* ===================================================================== *)
(** * Runs of the module loop *)
(* ===================================================================== *)

Section LoopRuns.
Variable env : Env.
Variable appDir : jsstring.

(** One iteration, as a function of what the environment answers. *)
Lemma generateModule_run (name : jsstring) (w : World) :
  generateModule env appDir name w =
  if dir_ok env (modulesDir appDir) w then
    let '(ok, files') :=
      spawn env (resourceCommand name) appDir
        (log (EvEnsureDir (modulesDir appDir) true) w) in
    (if ok then Ok tt else Err (ExecError (resourceCommand name) appDir),
     mkWorld files'
       (trace w ++ [EvEnsureDir (modulesDir appDir) true;
                    EvExec (resourceCommand name) appDir ok]))
  else (Err (FsError (modulesDir appDir)),
        log (EvEnsureDir (modulesDir appDir) false) w).
Proof.
  unfold generateModule, bind, try_catch, ensureDir, execPromise, throw.
  destruct (dir_ok env (modulesDir appDir) w); [|reflexivity].
  destruct (spawn env _ _ _) as [[|] files']; cbn [log files trace];
    rewrite <- app_assoc; reflexivity.
Qed.

Lemma after_modules_trace (names : list jsstring) (w : World) :
  trace (after_modules env appDir names w) = trace w ++ module_events appDir names.
Proof.
  revert w. induction names as [|name names IH]; intros w.
  - simpl. rewrite app_nil_r. reflexivity.
  - cbn [after_modules module_events]. rewrite IH. cbn [trace].
    rewrite <- app_assoc. reflexivity.
Qed.

(** The loop stops at the first module the environment refuses, and runs
    to the end when there is none. *)
Lemma for_of_generateModule_stops (names : list jsstring) (w : World) :
  exists n,
    n <= length names
    /\ (forall k name, k < n -> names !! k = Some name ->
          module_goes_through env appDir name
            (after_modules env appDir (take k names) w) = true)
    /\ ((n = length names
         /\ for_of names (generateModule env appDir) w
            = (Ok tt, after_modules env appDir names w))
        \/ exists name,
             let wn := after_modules env appDir (take n names) w in
             names !! n = Some name
             /\ module_goes_through env appDir name wn = false
             /\ (for_of names (generateModule env appDir) w).1
                = (if dir_ok env (modulesDir appDir) wn
                   then Err (ExecError (resourceCommand name) appDir)
                   else Err (FsError (modulesDir appDir)))
             /\ trace (for_of names (generateModule env appDir) w).2
                = trace wn
                  ++ (if dir_ok env (modulesDir appDir) wn
                      then [EvEnsureDir (modulesDir appDir) true;
                            EvExec (resourceCommand name) appDir false]
                      else [EvEnsureDir (modulesDir appDir) false])).
Proof.
  revert w. induction names as [|name names IH]; intros w.
  - exists 0. split; [reflexivity|]. split; [intros k name Hk; lia|].
    left. split; reflexivity.
  - cbn [for_of]. unfold bind. rewrite generateModule_run.
    destruct (dir_ok env (modulesDir appDir) w) eqn:Hd.
    + destruct (spawn env (resourceCommand name) appDir
                  (log (EvEnsureDir (modulesDir appDir) true) w))
        as [[|] files'] eqn:Hs.
      * match goal with |- context [for_of names _ ?w1] =>
          destruct (IH w1) as (n & Hn & Hthrough & Hrun) end.
        exists (S n). split; [simpl; lia|]. split.
        -- intros [|k] nm Hk Hl.
           ++ cbn in Hl. injection Hl as <-. cbn [take after_modules].
              unfold module_goes_through. rewrite Hd, Hs. reflexivity.
           ++ cbn [take after_modules]. rewrite Hs. cbn [snd].
              apply Hthrough; [lia | exact Hl].
        -- cbn [take after_modules length]. rewrite Hs. cbn [snd].
           destruct Hrun as [[-> Hrun] | (nm & Hl & Hrun)].
           ++ left. split; [reflexivity | exact Hrun].
           ++ right. exists nm. cbn zeta. split; [exact Hl | exact Hrun].
      * exists 0. split; [simpl; lia|]. split; [intros k nm Hk; lia|].
        right. exists name. cbn [take after_modules]. cbn zeta.
        split; [reflexivity|]. unfold module_goes_through. rewrite Hd, Hs.
        repeat split.
    + exists 0. split; [simpl; lia|]. split; [intros k nm Hk; lia|].
      right. exists name. cbn [take after_modules]. cbn zeta.
      split; [reflexivity|]. unfold module_goes_through. rewrite Hd.
      repeat split.
Qed.

Lemma generateModules_for_of (names : list jsstring) (w : World) :
  generateModules env appDir names w = for_of names (generateModule env appDir) w.
Proof. destruct names; reflexivity. Qed.
End LoopRuns.

(* ===================================================================== *)
(** * Properties of the template library and the dependency resolver *)
(* ===================================================================== *)

Lemma port_of_PostgreSQL (database : jsstring) :
  port_of database = 5432%N <-> database = js "PostgreSQL".
Proof.
  unfold port_of. destruct (str_eqb database (js "PostgreSQL")) eqn:E.
  - apply str_eqb_eq in E. tauto.
  - split; [discriminate|]. intros ->. discriminate.
Qed.

(** C1 (the code departs from the claim).  The port is 5432 only for the
    database name [PostgreSQL], which is none of the choices: for the
    choice [Postgres] both configuration templates render port 3306, the
    text 5432 does not occur in them, and that is the file
    [createDatabaseConfig] writes. *)
Theorem postgres_choice_renders_port_3306 :
  (forall d : Database, port_of (database_choice d) = 3306%N)
  /\ includes (js "port: 3306")
       (configContent (database_choice Postgres) (orm_choice TypeORM)) = true
  /\ includes (js "5432")
       (configContent (database_choice Postgres) (orm_choice TypeORM)) = false
  /\ includes (js "port: 3306")
       (configContent (database_choice Postgres) (orm_choice Sequelize)) = true
  /\ includes (js "5432")
       (configContent (database_choice Postgres) (orm_choice Sequelize)) = false
  /\ files (createDatabaseConfig permissive_env (js "/work/shop")
              (database_choice Postgres) (orm_choice TypeORM) bare_world).2
       !! configPath (js "/work/shop")
     = Some (getTypeORMConfig (js "Postgres")).
Proof.
  split; [intros []; reflexivity|].
  repeat split; vm_compute; reflexivity.
Qed.

(** C2 (the code departs from the claim).  The driver [pg] is pushed only
    for the database name [PostgreSQL]: for the choice [Postgres] the
    resolved list is the ORM's packages and nothing else, and the
    installation command names no driver. *)
Theorem postgres_choice_resolves_no_driver :
  getDatabaseDependencies (database_choice Postgres) (orm_choice TypeORM)
  = [js "typeorm"; js "@nestjs/typeorm"]
  /\ installCommand
       (getDatabaseDependencies (database_choice Postgres) (orm_choice TypeORM))
     = js "npm install typeorm @nestjs/typeorm --save"
  /\ forall o : Orm,
       getDatabaseDependencies (database_choice Postgres) (orm_choice o) = orm_packages o
       /\ (driver_package Postgres
           ∉ getDatabaseDependencies (database_choice Postgres) (orm_choice o)).
Proof.
  split; [reflexivity|]. split; [reflexivity|].
  intros []; (split; [reflexivity | compute_done]).
Qed.

(** C3.  MongoDB with Mongoose resolves without the [mongodb] package and
    MongoDB with TypeORM with it; for every pair of choices the resolved
    list has no duplicates and is the ORM's packages followed by at most
    the driver of the database. *)
Theorem resolve_mongodb_rule_order_and_no_duplicates :
  (js "mongodb" ∉ getDatabaseDependencies (database_choice MongoDB) (orm_choice Mongoose))
  /\ (js "mongodb" ∈ getDatabaseDependencies (database_choice MongoDB) (orm_choice TypeORM))
  /\ forall (d : Database) (o : Orm),
       NoDup (getDatabaseDependencies (database_choice d) (orm_choice o))
       /\ exists driver,
            getDatabaseDependencies (database_choice d) (orm_choice o)
            = orm_packages o ++ driver
            /\ (driver = [] \/ driver = [driver_package d]).
Proof.
  split; [compute_done|]. split; [compute_done|].
  intros d o. split.
  - destruct d, o; compute_done.
  - destruct d, o;
      first [ exists []; split; [reflexivity | left; reflexivity]
            | eexists [_]; split; [reflexivity | right; reflexivity] ].
Qed.

(** C8.  With the ORM Mongoose the configuration written is the
    connection-URI object whatever the database: it has a [uri:] field,
    no [host:] field and no [port:] field. *)
Theorem mongoose_config_is_uri_object (d : Database) :
  configContent (database_choice d) (orm_choice Mongoose) = getMongooseConfig
  /\ includes (js "uri:") (configContent (database_choice d) (orm_choice Mongoose)) = true
  /\ includes (js "host:") (configContent (database_choice d) (orm_choice Mongoose)) = false
  /\ includes (js "port:") (configContent (database_choice d) (orm_choice Mongoose)) = false.
Proof.
  assert (configContent (database_choice d) (orm_choice Mongoose) = getMongooseConfig) as ->
    by reflexivity.
  repeat split; vm_compute; reflexivity.
Qed.

(* ===================================================================== *)
(** * Properties of the source patcher *)
(* ===================================================================== *)

Lemma find_block_first_block_at (keyword s pre ws body post : jsstring) :
  find_block keyword s = Some (pre, ws, body, post) ->
  first_block_at keyword s pre ws body post.
Proof.
  intros E. destruct (find_block_Some _ _ _ _ _ _ E) as (Hs & Hws & Hn).
  split; [split; assumption|]. split; [assumption|].
  intros pre' ws' body' post' [Hs' Hws'].
  exact (find_block_first _ _ _ _ _ _ E _ _ _ _ Hs' Hws').
Qed.

Lemma str_eqb_refl (a : jsstring) : str_eqb a a = true.
Proof. apply str_eqb_eq. reflexivity. Qed.

Lemma insertion_is_insertion (a x b : jsstring) :
  is_insertion (a ++ b) (a ++ x ++ b) = true.
Proof.
  unfold is_insertion. apply existsb_exists. exists (length a). split.
  - apply in_seq. rewrite length_app. lia.
  - rewrite !take_app_length, str_eqb_refl. simpl.
    rewrite drop_app_length.
    replace (length (a ++ x ++ b) - (length (a ++ b) - length a))
      with (length (a ++ x)) by (rewrite !length_app; lia).
    rewrite (app_assoc a x b), drop_app_length. apply str_eqb_refl.
Qed.

(** C5, as stated, fails: on a block written [imports:[...]] the patch also
    puts a space after the colon, so its output is not the input with text
    inserted at one place. *)
Lemma array_block_patch_is_not_a_pure_insertion :
  has_block (js "imports") compact_module_source
  /\ ~ exists a x b,
        compact_module_source = a ++ b
        /\ replace imports_pattern (dbReplacement (js "TypeORM")) compact_module_source
           = a ++ x ++ b.
Proof.
  split.
  - exists (js "@Module({
  "), [], (js "ConfigModule"), (js ",
  providers: [AppService],
})
export class AppModule {}").
    split; [reflexivity | constructor].
  - intros (a & x & b & Hs & Hout).
    pose proof (insertion_is_insertion a x b) as H.
    rewrite <- Hs, <- Hout in H. vm_compute in H. discriminate.
Qed.

(** C5, amended.  On a text with a block, each patch rewrites the first
    block only: the text in front of it and after its first closing
    bracket stays, the contents between the brackets stay, the white space
    between the colon and the opening bracket becomes one space, and the
    inserted text stands immediately before that closing bracket. *)
Theorem array_block_patch_frame (s : jsstring) :
  (has_block (js "imports") s ->
   forall orm, exists pre ws body post,
     first_block_at (js "imports") s pre ws body post
     /\ replace imports_pattern (dbReplacement orm) s
        = pre ++ js "imports" ++ [colon] ++ js " " ++ [lbracket]
              ++ body ++ dbInsertion orm ++ [rbracket] ++ post)
  /\ (has_block (js "providers") s ->
      exists pre ws body post,
        first_block_at (js "providers") s pre ws body post
        /\ replace providers_pattern providersReplacement s
           = pre ++ js "providers" ++ [colon] ++ js " " ++ [lbracket]
                 ++ body ++ providersInsertion ++ [rbracket] ++ post).
Proof.
  split.
  - intros H orm. apply find_block_complete in H as [[[[pre ws] body] post] E].
    exists pre, ws, body, post. split; [apply find_block_first_block_at, E|].
    rewrite replace_imports, E. reflexivity.
  - intros H. apply find_block_complete in H as [[[[pre ws] body] post] E].
    exists pre, ws, body, post. split; [apply find_block_first_block_at, E|].
    rewrite replace_providers, E. reflexivity.
Qed.

Lemma array_block_patch_frame_witness :
  has_block (js "imports") compact_module_source
  /\ exists pre ws body post,
       first_block_at (js "imports") compact_module_source pre ws body post
       /\ replace imports_pattern (dbReplacement (js "TypeORM")) compact_module_source
          = pre ++ js "imports" ++ [colon] ++ js " " ++ [lbracket]
                ++ body ++ dbInsertion (js "TypeORM") ++ [rbracket] ++ post.
Proof.
  assert (has_block (js "imports") compact_module_source) as H.
  { exists (js "@Module({
  "), [], (js "ConfigModule"), (js ",
  providers: [AppService],
})
export class AppModule {}").
    split; [reflexivity | constructor]. }
  split; [exact H|].
  exact (proj1 (array_block_patch_frame compact_module_source) H (js "TypeORM")).
Defined.

Lemma interceptorImportStatement_no_start :
  no_start (js "providers" ++ [colon]) (interceptorImportStatement ++ [newline]) = true.
Proof. vm_compute. reflexivity. Qed.

(** The content written by the two mutation steps, in terms of the first
    block of the content read. *)
Lemma patchDbContent_spec (orm content : jsstring) :
  patchDbContent orm content =
  dbImportStatement orm ++ [newline] ++
  match find_block (js "imports") content with
  | Some (pre, ws, body, post) =>
      pre ++ js "imports: [" ++ body ++ dbInsertion orm ++ [rbracket] ++ post
  | None => content
  end.
Proof.
  unfold patchDbContent, prependDbImport. rewrite replace_imports.
  rewrite (app_assoc (dbImportStatement orm) [newline] content).
  rewrite find_block_skip by apply dbImportStatement_no_start.
  destruct (find_block (js "imports") content) as [[[[pre w] b] p']|];
    rewrite <- !app_assoc; reflexivity.
Qed.

Lemma patchInterceptorContent_spec (content : jsstring) :
  patchInterceptorContent content =
  interceptorImportStatement ++ [newline] ++
  match find_block (js "providers") content with
  | Some (pre, ws, body, post) =>
      pre ++ js "providers: [" ++ body ++ providersInsertion ++ [rbracket] ++ post
  | None => content
  end.
Proof.
  unfold patchInterceptorContent, prependInterceptorImport. rewrite replace_providers.
  rewrite (app_assoc interceptorImportStatement [newline] content).
  rewrite find_block_skip by apply interceptorImportStatement_no_start.
  destruct (find_block (js "providers") content) as [[[[pre w] b] p']|];
    rewrite <- !app_assoc; reflexivity.
Qed.

Section MutationSteps.
Variable env : Env.
Variable appDir : jsstring.

Lemma updateAppModuleForDatabase_run (orm : jsstring) (w : World) :
  updateAppModuleForDatabase env appDir orm w
= rewrite_run env appDir (patchDbContent orm) w.
Proof.
  unfold updateAppModuleForDatabase, rewrite_run, bind, readFile, writeFile.
  destruct (if read_ok env _ w then _ else _) as [content|]; [|reflexivity].
  fold (prependDbImport orm content).
  fold (patchDbContent orm content).
  destruct (write_ok env _ _ _); unfold log; cbn [files trace];
    rewrite <- app_assoc; reflexivity.
Qed.

Lemma updateAppModuleForInterceptors_run (w : World) :
  updateAppModuleForInterceptors env appDir w
= rewrite_run env appDir patchInterceptorContent w.
Proof.
  unfold updateAppModuleForInterceptors, rewrite_run, bind, readFile, writeFile.
  destruct (if read_ok env _ w then _ else _) as [content|]; [|reflexivity].
  fold (prependInterceptorImport content).
  fold (patchInterceptorContent content).
  destruct (write_ok env _ _ _); unfold log; cbn [files trace];
    rewrite <- app_assoc; reflexivity.
Qed.
End MutationSteps.

Lemma bare_module_source_no_imports : ~ has_block (js "imports") bare_module_source.
Proof. apply find_block_None. vm_compute. reflexivity. Qed.

Lemma bare_module_source_no_providers : ~ has_block (js "providers") bare_module_source.
Proof. apply find_block_None. vm_compute. reflexivity. Qed.

(** C4, as stated, fails: on a root module without an imports block the
    replacement returns its input and the mutation step completes without
    any error. *)
Lemma patch_without_anchor_does_not_fail :
  ~ has_block (js "imports") bare_module_source
  /\ replace imports_pattern (dbReplacement (js "TypeORM")) bare_module_source
     = bare_module_source
  /\ (updateAppModuleForDatabase permissive_env (js "/work/shop") (js "TypeORM")
        bare_world).1 = Ok tt.
Proof.
  split; [exact bare_module_source_no_imports|].
  split; vm_compute; reflexivity.
Qed.

(** C4, amended.  On a text without the block a patch raises no error: the
    replacement returns the text unchanged, and the mutation step goes on
    to write the file whenever the file system lets it read and write. *)
Theorem array_block_patch_without_anchor (s : jsstring) :
  (~ has_block (js "imports") s ->
   forall orm, replace imports_pattern (dbReplacement orm) s = s)
  /\ (~ has_block (js "providers") s ->
      replace providers_pattern providersReplacement s = s)
  /\ (~ has_block (js "providers") s ->
      forall env appDir w,
        read_ok env (appModulePath appDir) w = true ->
        files w !! appModulePath appDir = Some s ->
        write_ok env (appModulePath appDir) (prependInterceptorImport s)
          (log (EvReadFile (appModulePath appDir) true) w) = true ->
        updateAppModuleForInterceptors env appDir w =
        (Ok tt,
         mkWorld (<[appModulePath appDir := prependInterceptorImport s]> (files w))
           (trace w ++ [EvReadFile (appModulePath appDir) true;
                        EvWriteFile (appModulePath appDir)
                          (prependInterceptorImport s) true]))).
Proof.
  split; [|split].
  - intros H orm. apply replace_without_block, H.
  - intros H. apply replace_without_block, H.
  - intros H env appDir w Hr Hf Hw.
    assert (patchInterceptorContent s = prependInterceptorImport s) as E.
    { rewrite patchInterceptorContent_spec. apply find_block_None in H. rewrite H.
      reflexivity. }
    rewrite updateAppModuleForInterceptors_run. unfold rewrite_run.
    rewrite Hr, Hf, E, Hw. reflexivity.
Qed.

Lemma array_block_patch_without_anchor_witness :
  ~ has_block (js "imports") bare_module_source
  /\ replace imports_pattern (dbReplacement (js "TypeORM")) bare_module_source
     = bare_module_source.
Proof.
  split; [exact bare_module_source_no_imports|].
  exact (proj1 (array_block_patch_without_anchor bare_module_source)
           bare_module_source_no_imports (js "TypeORM")).
Defined.

(** C9.  The database step puts the import statement and a newline in
    front of the content it read and only then looks for the imports
    block: the file is rewritten with that text in front in every case,
    and with nothing else changed when the source has no imports block.
    The text in front is the two import lines of the chosen ORM, given
    here letter by letter, and only the newline when the ORM is none of
    the three. *)
Theorem database_step_prepends_import_before_matching
    (env : Env) (appDir orm content : jsstring) (w : World) :
  read_ok env (appModulePath appDir) w = true ->
  files w !! appModulePath appDir = Some content ->
  write_ok env (appModulePath appDir) (patchDbContent orm content)
    (log (EvReadFile (appModulePath appDir) true) w) = true ->
  updateAppModuleForDatabase env appDir orm w =
    (Ok tt,
     mkWorld (<[appModulePath appDir := patchDbContent orm content]> (files w))
       (trace w ++ [EvReadFile (appModulePath appDir) true;
                    EvWriteFile (appModulePath appDir) (patchDbContent orm content) true]))
  /\ patchDbContent orm content =
     replace imports_pattern (dbReplacement orm)
       (dbImportStatement orm ++ [newline] ++ content)
  /\ (exists rest, patchDbContent orm content = dbImportStatement orm ++ [newline] ++ rest)
  /\ (~ has_block (js "imports") content ->
      patchDbContent orm content = dbImportStatement orm ++ [newline] ++ content)
  /\ (orm = js "TypeORM" ->
      exists rest,
        patchDbContent orm content =
        js "import { TypeOrmModule } from '@nestjs/typeorm';
import { databaseConfig } from './config/database.config';
" ++ rest
        /\ (~ has_block (js "imports") content -> rest = content))
  /\ (orm = js "Mongoose" ->
      exists rest,
        patchDbContent orm content =
        js "import { MongooseModule } from '@nestjs/mongoose';
import { databaseConfig } from './config/database.config';
" ++ rest
        /\ (~ has_block (js "imports") content -> rest = content))
  /\ (orm = js "Sequelize" ->
      exists rest,
        patchDbContent orm content =
        js "import { SequelizeModule } from '@nestjs/sequelize';
import { databaseConfig } from './config/database.config';
" ++ rest
        /\ (~ has_block (js "imports") content -> rest = content))
  /\ (orm <> js "TypeORM" -> orm <> js "Mongoose" -> orm <> js "Sequelize" ->
      exists rest,
        patchDbContent orm content = js "
" ++ rest
        /\ (~ has_block (js "imports") content -> rest = content)).
Proof.
  intros Hr Hf Hw.
  assert (exists rest,
            patchDbContent orm content = dbImportStatement orm ++ [newline] ++ rest
            /\ (~ has_block (js "imports") content -> rest = content))
    as (rest & Erest & Hrest).
  { rewrite patchDbContent_spec.
    destruct (find_block (js "imports") content) as [[[[pre ws] body] post]|] eqn:E.
    - eexists; split; [reflexivity|]. intros H. apply find_block_None in H.
      rewrite H in E. discriminate E.
    - eexists; split; [reflexivity|]. reflexivity. }
  split; [|split; [|split; [|split; [|split; [|split; [|split]]]]]].
  - rewrite updateAppModuleForDatabase_run. unfold rewrite_run.
    rewrite Hr, Hf, Hw. reflexivity.
  - reflexivity.
  - rewrite patchDbContent_spec. eauto.
  - intros H. rewrite patchDbContent_spec. apply find_block_None in H. rewrite H.
    reflexivity.
  - intros ->. exists rest. split; [|exact Hrest]. rewrite Erest. reflexivity.
  - intros ->. exists rest. split; [|exact Hrest]. rewrite Erest. reflexivity.
  - intros ->. exists rest. split; [|exact Hrest]. rewrite Erest. reflexivity.
  - intros H1 H2 H3. exists rest. split; [|exact Hrest]. rewrite Erest.
    unfold dbImportStatement. rewrite !str_eqb_neq by assumption. reflexivity.
Qed.

Lemma database_step_prepends_import_witness :
  (updateAppModuleForDatabase permissive_env (js "/work/shop") (js "TypeORM")
     bare_world).1 = Ok tt
  /\ files (updateAppModuleForDatabase permissive_env (js "/work/shop") (js "TypeORM")
              bare_world).2 !! js "/work/shop/src/app.module.ts"
     = Some (js "import { TypeOrmModule } from '@nestjs/typeorm';
import { databaseConfig } from './config/database.config';
@Module({})
export class AppModule {}").
Proof.
  destruct (database_step_prepends_import_before_matching
              permissive_env (js "/work/shop") (js "TypeORM") bare_module_source
              bare_world) as (H1 & _ & _ & _ & H5 & _).
  - reflexivity.
  - vm_compute. reflexivity.
  - reflexivity.
  - destruct (H5 eq_refl) as (rest & E & Hrest).
    rewrite (Hrest bare_module_source_no_imports) in E.
    rewrite H1, E. split; [reflexivity|].
    cbn [snd files]. apply lookup_insert_eq.
Defined.

(* ===================================================================== *)
(** * Properties of the orchestrator *)
(* ===================================================================== *)

(** Refutes the membership of a call in an explicit list of other calls. *)
Ltac no_such_call H :=
  cbn in H;
  repeat (rewrite elem_of_cons in H; destruct H as [H|H]; [discriminate|]);
  apply elem_of_nil in H; destruct H.

(** C7.  The loop issues one generation command per module, in the order
    of the list and one after the other, and stops at the first call the
    environment refuses: the modules before it have all gone through, the
    refused call is the last event of the run, and the run ends with the
    error of that call; when the environment refuses nothing the run
    succeeds after the two calls of every module.  With [users] and
    [orders], and the first command going through, the run issues
    [nest g resource modules/users] and then [nest g resource
    modules/orders], and ends as the second one ends; when the first
    command fails the second is never issued. *)
Theorem module_generation_is_sequential_and_fail_fast :
  (forall env appDir names w,
     exists n,
       n <= length names
       /\ (forall k name, k < n -> names !! k = Some name ->
             module_goes_through env appDir name
               (after_modules env appDir (take k names) w) = true)
       /\ ((n = length names
            /\ generateModules env appDir names w
               = (Ok tt, after_modules env appDir names w)
            /\ trace (generateModules env appDir names w).2
               = trace w ++ module_events appDir names)
           \/ exists name,
                let wn := after_modules env appDir (take n names) w in
                names !! n = Some name
                /\ module_goes_through env appDir name wn = false
                /\ (generateModules env appDir names w).1
                   = (if dir_ok env (modulesDir appDir) wn
                      then Err (ExecError (resourceCommand name) appDir)
                      else Err (FsError (modulesDir appDir)))
                /\ trace (generateModules env appDir names w).2
                   = trace w ++ module_events appDir (take n names)
                     ++ (if dir_ok env (modulesDir appDir) wn
                         then [EvEnsureDir (modulesDir appDir) true;
                               EvExec (resourceCommand name) appDir false]
                         else [EvEnsureDir (modulesDir appDir) false])))
  /\ (forall env appDir names w,
        lets_through env ->
        (generateModules env appDir names w).1 = Ok tt
        /\ trace (generateModules env appDir names w).2
           = trace w ++ module_events appDir names)
  /\ (forall env appDir w files1 ok files2,
        let dir := modulesDir appDir in
        let users := js "nest g resource modules/users" in
        let orders := js "nest g resource modules/orders" in
        let w1 := mkWorld files1
                    (trace w ++ [EvEnsureDir dir true; EvExec users appDir true]) in
        dir_ok env dir w = true ->
        spawn env users appDir (log (EvEnsureDir dir true) w) = (true, files1) ->
        dir_ok env dir w1 = true ->
        spawn env orders appDir (log (EvEnsureDir dir true) w1) = (ok, files2) ->
        generateModules env appDir [js "users"; js "orders"] w
        = (if ok then Ok tt else Err (ExecError orders appDir),
           mkWorld files2
             (trace w ++ [EvEnsureDir dir true; EvExec users appDir true;
                          EvEnsureDir dir true; EvExec orders appDir ok])))
  /\ (forall env appDir w files1,
        let dir := modulesDir appDir in
        let users := js "nest g resource modules/users" in
        dir_ok env dir w = true ->
        spawn env users appDir (log (EvEnsureDir dir true) w) = (false, files1) ->
        generateModules env appDir [js "users"; js "orders"] w
        = (Err (ExecError users appDir),
           mkWorld files1
             (trace w ++ [EvEnsureDir dir true; EvExec users appDir false]))).
Proof.
  split; [|split; [|split]].
  - intros env appDir names w. rewrite generateModules_for_of.
    destruct (for_of_generateModule_stops env appDir names w)
      as (n & Hn & Hthrough & Hrun).
    exists n. split; [exact Hn|]. split; [exact Hthrough|].
    destruct Hrun as [[-> Hrun] | (name & Hl & Hno & Hr & Ht)].
    + left. split; [reflexivity|]. split; [exact Hrun|].
      rewrite Hrun. apply after_modules_trace.
    + right. exists name. cbn zeta. split; [exact Hl|]. split; [exact Hno|].
      split; [exact Hr|]. rewrite Ht, after_modules_trace, <- app_assoc.
      reflexivity.
  - intros env appDir names w [Hdir Hspawn]. rewrite generateModules_for_of.
    destruct (for_of_generateModule_stops env appDir names w)
      as (n & Hn & Hthrough & [[-> Hrun] | (name & Hl & Hno & _)]).
    + rewrite Hrun. split; [reflexivity | apply after_modules_trace].
    + unfold module_goes_through in Hno. rewrite Hdir, Hspawn in Hno.
      discriminate Hno.
  - intros env appDir w files1 ok files2 dir users orders w1 Hd1 Hs1 Hd2 Hs2.
    rewrite generateModules_for_of. cbn [for_of]. unfold bind.
    rewrite generateModule_run. fold dir.
    change (resourceCommand (js "users")) with users. rewrite Hd1, Hs1.
    fold w1. unfold bind. rewrite generateModule_run. fold dir.
    change (resourceCommand (js "orders")) with orders. rewrite Hd2, Hs2.
    destruct ok; cbn [ret trace w1]; rewrite <- app_assoc; reflexivity.
  - intros env appDir w files1 dir users Hd1 Hs1.
    rewrite generateModules_for_of. cbn [for_of]. unfold bind.
    rewrite generateModule_run. fold dir.
    change (resourceCommand (js "users")) with users. rewrite Hd1, Hs1.
    reflexivity.
Qed.

Lemma module_generation_witness :
  generateModules permissive_env (js "/work/shop") [js "users"; js "orders"] bare_world
  = (Ok tt,
     mkWorld (files bare_world)
       [EvEnsureDir (js "/work/shop/src/modules") true;
        EvExec (js "nest g resource modules/users") (js "/work/shop") true;
        EvEnsureDir (js "/work/shop/src/modules") true;
        EvExec (js "nest g resource modules/orders") (js "/work/shop") true])
  /\ generateModules (failing_env (js "nest g resource modules/users"))
       (js "/work/shop") [js "users"; js "orders"] bare_world
     = (Err (ExecError (js "nest g resource modules/users") (js "/work/shop")),
        mkWorld (files bare_world)
          [EvEnsureDir (js "/work/shop/src/modules") true;
           EvExec (js "nest g resource modules/users") (js "/work/shop") false])
  /\ (generateModules permissive_env (js "/work/shop") [js "users"; js "orders"]
        bare_world).1 = Ok tt.
Proof.
  split; [|split].
  - exact (proj1 (proj2 (proj2 module_generation_is_sequential_and_fail_fast))
             permissive_env (js "/work/shop") bare_world
             (files bare_world) true (files bare_world)
             eq_refl eq_refl eq_refl eq_refl).
  - exact (proj2 (proj2 (proj2 module_generation_is_sequential_and_fail_fast))
             (failing_env (js "nest g resource modules/users"))
             (js "/work/shop") bare_world (files bare_world)
             eq_refl eq_refl).
  - exact (proj1 (proj1 (proj2 module_generation_is_sequential_and_fail_fast)
                    permissive_env (js "/work/shop") [js "users"; js "orders"]
                    bare_world
                    (conj (fun _ _ => eq_refl) (fun _ _ _ => eq_refl)))).
Defined.

(** The run in which the call for [users] fails. *)
Example users_fails_orders_not_attempted :
  let run := generateModules (failing_env (resourceCommand (js "users")))
               (js "/work/shop") [js "users"; js "orders"] bare_world in
  calls (trace run.2) = [failed_call (js "users")]
  /\ run.1 = Err (ExecError (resourceCommand (js "users")) (js "/work/shop")).
Proof. split; vm_compute; reflexivity. Qed.

Example users_then_orders :
  calls (trace (generateModules permissive_env (js "/work/shop")
                  [js "users"; js "orders"] bare_world).2)
  = [ok_call (js "users"); ok_call (js "orders")].
Proof. vm_compute. reflexivity. Qed.

(** ** Events of a computation *)

Section Emits.
Context {A B : Type} (P : Event -> Prop).

Lemma emits_ret (a : A) : emits P (ret a).
Proof. intros w. exists []. simpl. rewrite app_nil_r. auto. Qed.

Lemma emits_throw (e : Error) : emits P (throw e : M A).
Proof. intros w. exists []. simpl. rewrite app_nil_r. auto. Qed.

Lemma emits_bind (m : M A) (f : A -> M B) :
  emits P m -> (forall a, emits P (f a)) -> emits P (bind m f).
Proof.
  intros Hm Hf w. unfold bind. destruct (Hm w) as (evs & Ht & HP).
  destruct (m w) as [[a|e] w1]; cbn [snd] in Ht.
  - destruct (Hf a w1) as (evs' & Ht' & HP'). exists (evs ++ evs').
    rewrite Ht', Ht, app_assoc. split; [reflexivity | apply Forall_app; auto].
  - exists evs. auto.
Qed.

Lemma emits_try_catch (m : M A) (h : Error -> M A) :
  emits P m -> (forall e, emits P (h e)) -> emits P (try_catch m h).
Proof.
  intros Hm Hh w. unfold try_catch. destruct (Hm w) as (evs & Ht & HP).
  destruct (m w) as [[a|e] w1]; cbn [snd] in Ht.
  - exists evs. auto.
  - destruct (Hh e w1) as (evs' & Ht' & HP'). exists (evs ++ evs').
    rewrite Ht', Ht, app_assoc. split; [reflexivity | apply Forall_app; auto].
Qed.
End Emits.

Section EmitsGateways.
Variables (env : Env) (P : Event -> Prop).

Lemma emits_ensureDir (path : jsstring) :
  (forall ok, P (EvEnsureDir path ok)) -> emits P (ensureDir env path).
Proof.
  intros H w. unfold ensureDir. destruct (dir_ok env path w); eexists;
    (split; [reflexivity | repeat constructor; apply H]).
Qed.

Lemma emits_readFile (path : jsstring) :
  (forall ok, P (EvReadFile path ok)) -> emits P (readFile env path).
Proof.
  intros H w. unfold readFile. destruct (if read_ok env path w then _ else _); eexists;
    (split; [reflexivity | repeat constructor; apply H]).
Qed.

Lemma emits_writeFile (path content : jsstring) :
  (forall ok, P (EvWriteFile path content ok)) -> emits P (writeFile env path content).
Proof.
  intros H w. unfold writeFile. destruct (write_ok env path content w); eexists;
    (split; [reflexivity | repeat constructor; apply H]).
Qed.

Lemma emits_execPromise (command dir : jsstring) :
  (forall ok, P (EvExec command dir ok)) -> emits P (execPromise env command dir).
Proof.
  intros H w. unfold execPromise. destruct (spawn env command dir w) as [ok files'].
  eexists. split; [reflexivity | repeat constructor; apply H].
Qed.
End EmitsGateways.

Section NoResourceCall.
Variable env : Env.



End NoResourceCall.

(** ** Splitting and trimming *)



Lemma split_on_no_sep (sep : code_unit) (s : jsstring) :
  Forall (fun piece => sep ∉ piece) (split_on sep s).
Proof.
  induction s as [|c s IH]; simpl.
  - repeat constructor. apply not_elem_of_nil.
  - destruct (cu_eqb c sep) eqn:E.
    + constructor; [apply not_elem_of_nil | exact IH].
    + apply cu_eqb_neq in E.
      destruct (split_on sep s) as [|p ps].
      * repeat constructor. rewrite elem_of_cons. intros [?|H]; [congruence|].
        apply elem_of_nil in H. destruct H.
      * inversion IH as [|? ? Hp Hps]; subst. constructor; [|exact Hps].
        rewrite elem_of_cons. intros [?|?]; [congruence | contradiction].
Qed.

Lemma trim_start_spec (s : jsstring) :
  exists ws, s = ws ++ trim_start s /\ all_space ws.
Proof.
  induction s as [|c s IH]; simpl.
  - exists []. split; [reflexivity | constructor].
  - destruct (is_space c) eqn:E.
    + destruct IH as (ws & Hs & Hws). exists (c :: ws).
      split; [simpl; f_equal; exact Hs | constructor; assumption].
    + exists []. split; [reflexivity | constructor].
Qed.

Lemma trim_start_head (s r : jsstring) (c : code_unit) :
  trim_start s = c :: r -> is_space c = false.
Proof.
  induction s as [|c0 s IH]; simpl; [discriminate|].
  destruct (is_space c0) eqn:E; [exact IH|]. intros [= <- <-]. exact E.
Qed.

Lemma all_space_rev (ws : jsstring) : all_space ws -> all_space (rev ws).
Proof. apply List.Forall_rev. Qed.

Lemma trim_end_spec (s : jsstring) :
  exists ws, s = trim_end s ++ ws /\ all_space ws.
Proof.
  unfold trim_end. destruct (trim_start_spec (rev s)) as (ws & Hs & Hws).
  exists (rev ws). split; [|apply all_space_rev, Hws].
  rewrite <- rev_app_distr, <- Hs, rev_involutive. reflexivity.
Qed.

Lemma trim_end_last (s r : jsstring) (c : code_unit) :
  trim_end s = r ++ [c] -> is_space c = false.
Proof.
  unfold trim_end. intros H. apply (f_equal (@rev _)) in H.
  rewrite rev_involutive, rev_app_distr in H. simpl in H.
  exact (trim_start_head _ _ _ H).
Qed.

(** [trim] removes white space at both ends, all of it and nothing else. *)
Lemma trim_spec (s : jsstring) :
  (exists ws1 ws2, s = ws1 ++ trim s ++ ws2 /\ all_space ws1 /\ all_space ws2)
  /\ (forall c r, trim s = c :: r -> is_space c = false)
  /\ (forall c r, trim s = r ++ [c] -> is_space c = false).
Proof.
  unfold trim.
  destruct (trim_start_spec s) as (ws1 & Hs1 & Hws1).
  destruct (trim_end_spec (trim_start s)) as (ws2 & Hs2 & Hws2).
  split; [|split].
  - exists ws1, ws2. rewrite <- Hs2. auto.
  - intros c r E. rewrite E in Hs2. simpl in Hs2.
    exact (trim_start_head _ _ _ Hs2).
  - intros c r E. exact (trim_end_last _ _ _ E).
Qed.

Lemma trim_elements (s : jsstring) (c : code_unit) : c ∈ trim s -> c ∈ s.
Proof.
  destruct (trim_spec s) as ((ws1 & ws2 & Hs & _) & _). intros H.
  rewrite Hs, !elem_of_app. auto.
Qed.

Lemma split_last_None (p : jsstring) : slash ∉ p -> split_last p = None.
Proof.
  induction p as [|c p IH]; intros H; [reflexivity|].
  rewrite not_elem_of_cons in H. destruct H as [Hc Hp]. simpl.
  rewrite (IH Hp).
  assert (cu_eqb c slash = false) as -> by (apply cu_eqb_neq; congruence).
  reflexivity.
Qed.

Lemma split_last_app (d b : jsstring) :
  slash ∉ b -> split_last (d ++ slash :: b) = Some (d, b).
Proof.
  intros Hb. induction d as [|c d IH]; simpl.
  - rewrite (split_last_None b Hb), ?cu_eqb_refl. reflexivity.
  - rewrite IH. reflexivity.
Qed.

(** For a plain application name the joined application directory gives
    back the name and the working directory. *)
Lemma plain_name_paths (dir appName : jsstring) :
  plain_name appName -> dir <> [] ->
  basename (path_join [dir; appName]) = appName
  /\ dirname (path_join [dir; appName]) = dir.
Proof.
  intros (Hs & _) Hd.
  assert (split_last (path_join [dir; appName]) = Some (dir, appName)) as E.
  { unfold path_join. cbn [join app]. apply split_last_app, Hs. }
  unfold basename, dirname. rewrite E. split; [reflexivity|].
  destruct dir; [congruence | reflexivity].
Qed.

Lemma plain_name_shop : plain_name (js "shop").
Proof.
  unfold plain_name. split; [|repeat split; discriminate].
  apply (bool_decide_unpack _). vm_compute. reflexivity.
Qed.

Lemma absolute_path_nonempty (dir : jsstring) : absolute_path dir -> dir <> [].
Proof.
  intros (segments & Hne & _ & ->). destruct segments as [|segment segments];
    [congruence | discriminate].
Qed.

Lemma absolute_path_work : absolute_path (js "/work").
Proof.
  exists [js "work"]. split; [discriminate|]. split; [|reflexivity].
  constructor; [|constructor]. unfold plain_name.
  split; [|repeat split; discriminate].
  apply (bool_decide_unpack _). vm_compute. reflexivity.
Qed.






(** ** The interceptor stage *)

Lemma interceptor_paths_distinct (appDir : jsstring) :
  responseInterceptorPath appDir <> appModulePath appDir
  /\ errorInterceptorPath appDir <> appModulePath appDir
  /\ responseInterceptorPath appDir <> errorInterceptorPath appDir.
Proof.
  unfold responseInterceptorPath, errorInterceptorPath, appModulePath, path_join.
  cbn [join]. repeat split; intros H; apply app_inv_head in H; discriminate.
Qed.

Section InterceptorStage.
Variable env : Env.
Variable appDir : jsstring.

Ltac run_step E :=
  match type of E with
  | context [dir_ok env ?p ?w] => destruct (dir_ok env p w) eqn:?
  | context [spawn env ?c ?d ?w] => destruct (spawn env c d w) as [[|] ?] eqn:?
  | context [write_ok env ?p ?c ?w] => destruct (write_ok env p c w) eqn:?
  | context [read_ok env ?p ?w] => destruct (read_ok env p w) eqn:?
  end; cbv beta iota in E.

Lemma generateInterceptors_outcome (w w' : World) (r : Result unit) :
  generateInterceptors env appDir w = (r, w') ->
  exists evs,
    trace w' = trace w ++ evs
    /\ (r = Ok tt ->
        exists content,
          rootAfterInterceptorCommands env appDir w = Some content
          /\ files w' !! responseInterceptorPath appDir = Some responseInterceptorContent
          /\ files w' !! errorInterceptorPath appDir = Some errorInterceptorContent
          /\ files w' !! appModulePath appDir = Some (patchInterceptorContent content)
          /\ root_writes appDir evs = [patchInterceptorContent content])
    /\ (r <> Ok tt -> root_writes appDir evs = [])
    /\ (EvExec errorInterceptorCommand appDir false ∈ evs ->
        r = Err (ExecError errorInterceptorCommand appDir)
        /\ forallb (fun ev => negb (is_write ev)) evs = true).
Proof.
  intros E.
  destruct (interceptor_paths_distinct appDir) as (Hra & Hea & Hre).
  unfold generateInterceptors in E.
  unfold bind at 1 in E. unfold ensureDir in E. run_step E.
  2:{ injection E as <- <-. eexists. split; [reflexivity|].
      split; [discriminate|]. split; [reflexivity|].
      intros H. no_such_call H. }
  unfold bind at 1 in E. unfold execPromise at 1 in E. run_step E.
  2:{ injection E as <- <-. eexists. split; [unfold log; cbn [trace];
        rewrite <- !app_assoc; reflexivity|].
      split; [discriminate|]. split; [reflexivity|].
      intros H. no_such_call H. }
  unfold bind at 1 in E. unfold execPromise at 1 in E. run_step E.
  2:{ injection E as <- <-. eexists. split; [unfold log; cbn [trace];
        rewrite <- !app_assoc; reflexivity|].
      split; [discriminate|]. split; [reflexivity|].
      intros _. split; reflexivity. }
  unfold bind at 1 in E. unfold updateResponseInterceptor, writeFile at 1 in E.
  run_step E.
  2:{ injection E as <- <-. eexists. split; [unfold log; cbn [trace];
        rewrite <- !app_assoc; reflexivity|].
      split; [discriminate|]. split; [reflexivity|].
      intros H. no_such_call H. }
  unfold bind at 1 in E. unfold updateErrorInterceptor, writeFile at 1 in E.
  run_step E.
  2:{ injection E as <- <-. eexists. split; [unfold log; cbn [trace];
        rewrite <- !app_assoc; reflexivity|].
      split; [discriminate|]. split.
      - intros _. cbn [app root_writes]. rewrite (str_eqb_neq _ _ Hra). reflexivity.
      - intros H. no_such_call H. }
  rewrite updateAppModuleForInterceptors_run in E. unfold rewrite_run in E.
  unfold log in E. cbn [files trace] in E.
  destruct (if read_ok env _ _ then _ else _) as [content|] eqn:Hread.
  2:{ injection E as <- <-. eexists. split; [unfold log; cbn [trace];
        rewrite <- !app_assoc; reflexivity|].
      split; [discriminate|]. split.
      - intros _. cbn [app root_writes].
        rewrite (str_eqb_neq _ _ Hra), (str_eqb_neq _ _ Hea). reflexivity.
      - intros H. no_such_call H. }
  run_step E.
  2:{ injection E as <- <-. eexists. split; [cbn [trace];
        rewrite <- !app_assoc; reflexivity|].
      split; [discriminate|]. split.
      - intros _. cbn [app root_writes].
        rewrite (str_eqb_neq _ _ Hra), (str_eqb_neq _ _ Hea). reflexivity.
      - intros H. no_such_call H. }
  injection E as <- <-. eexists. split; [cbn [trace];
    rewrite <- !app_assoc; reflexivity|].
  split; [|split].
  - intros _. exists content. cbn [files]. split.
    { unfold rootAfterInterceptorCommands. cbn zeta.
      repeat match goal with
             | H : spawn env _ _ _ = _ |- _ => rewrite H; clear H; cbn [snd]
             end.
      destruct (read_ok env _ _); [|discriminate Hread].
      rewrite !lookup_insert_ne in Hread by congruence. exact Hread. }
    rewrite lookup_insert_eq.
    rewrite lookup_insert_ne by congruence.
    rewrite lookup_insert_ne by congruence.
    rewrite lookup_insert_eq.
    rewrite (lookup_insert_ne _ (appModulePath appDir)) by congruence.
    rewrite lookup_insert_eq.
    repeat split. cbn [app root_writes].
    rewrite (str_eqb_neq _ _ Hra), (str_eqb_neq _ _ Hea), str_eqb_refl. reflexivity.
  - intros H. contradiction.
  - intros H. no_such_call H.
Qed.
End InterceptorStage.

(** C6, as stated, fails: with a root module that has no providers array
    the interceptor stage succeeds, writes both interceptor files, and
    leaves the root module with the import statements in front and no
    provider registration. *)
Lemma interceptors_succeed_without_registrations :
  let run := generateInterceptors permissive_env (js "/work/shop") bare_world in
  run.1 = Ok tt
  /\ files run.2 !! responseInterceptorPath (js "/work/shop")
     = Some responseInterceptorContent
  /\ files run.2 !! errorInterceptorPath (js "/work/shop")
     = Some errorInterceptorContent
  /\ files run.2 !! appModulePath (js "/work/shop")
     = Some (interceptorImportStatement ++ [newline] ++ bare_module_source)
  /\ occurrences (js "provide: APP_INTERCEPTOR")
       (interceptorImportStatement ++ [newline] ++ bare_module_source) = 0.
Proof. repeat split; vm_compute; reflexivity. Qed.

(** C6, amended.  A run of the interceptor stage that succeeds has written
    both interceptor files with their fixed bodies and has written the
    root module once, from the content the root module had once the two
    generation commands had run; when that content has a providers block,
    the one write puts the two provider registrations in front of the
    first closing bracket of its first providers block, and otherwise it
    only puts the import statements in front.  A run that fails has not
    written the root module, and when the second generation command fails
    nothing at all is written. *)
Theorem interceptor_setup_outcome (env : Env) (appDir : jsstring) (w : World) :
  exists evs,
    trace (generateInterceptors env appDir w).2 = trace w ++ evs
    /\ ((generateInterceptors env appDir w).1 = Ok tt ->
        exists content,
          rootAfterInterceptorCommands env appDir w = Some content
          /\ files (generateInterceptors env appDir w).2 !! responseInterceptorPath appDir
             = Some responseInterceptorContent
          /\ files (generateInterceptors env appDir w).2 !! errorInterceptorPath appDir
             = Some errorInterceptorContent
          /\ files (generateInterceptors env appDir w).2 !! appModulePath appDir
             = Some (patchInterceptorContent content)
          /\ root_writes appDir evs = [patchInterceptorContent content]
          /\ (has_block (js "providers") content ->
              exists pre ws body post,
                first_block_at (js "providers") content pre ws body post
                /\ patchInterceptorContent content
                   = interceptorImportStatement ++ [newline] ++ pre
                     ++ js "providers: [" ++ body ++ providerStatements ++ js "
  ]" ++ post)
          /\ (~ has_block (js "providers") content ->
              patchInterceptorContent content
              = interceptorImportStatement ++ [newline] ++ content))
    /\ ((generateInterceptors env appDir w).1 <> Ok tt -> root_writes appDir evs = [])
    /\ (EvExec errorInterceptorCommand appDir false ∈ evs ->
        (generateInterceptors env appDir w).1
        = Err (ExecError errorInterceptorCommand appDir)
        /\ forallb (fun ev => negb (is_write ev)) evs = true)
    /\ occurrences (js "provide: APP_INTERCEPTOR") providerStatements = 2
    /\ occurrences (js "useClass: ResponseInterceptor") providerStatements = 1
    /\ occurrences (js "useClass: ErrorInterceptor") providerStatements = 1.
Proof.
  destruct (generateInterceptors env appDir w) as [r w'] eqn:E.
  destruct (generateInterceptors_outcome env appDir w w' r E)
    as (evs & Ht & Hok & Herr & Hsecond).
  exists evs. cbn [fst snd]. split; [exact Ht|].
  split; [|split; [exact Herr|split; [exact Hsecond|]]].
  - intros Hr. destruct (Hok Hr) as (content & H0 & H1 & H2 & H3 & H4).
    exists content. repeat split; try assumption.
    + intros Hb. apply find_block_complete in Hb as [[[[pre ws] body] post] Hf].
      exists pre, ws, body, post. split; [apply find_block_first_block_at, Hf|].
      rewrite patchInterceptorContent_spec, Hf. unfold providersInsertion.
      rewrite <- !app_assoc. reflexivity.
    + intros Hb. apply find_block_None in Hb.
      rewrite patchInterceptorContent_spec, Hb. reflexivity.
  - repeat split; vm_compute; reflexivity.
Qed.

Lemma interceptor_setup_witness :
  has_block (js "providers") compact_module_source
  /\ (generateInterceptors permissive_env (js "/work/shop") compact_world).1 = Ok tt
  /\ (exists evs,
        trace (generateInterceptors permissive_env (js "/work/shop") compact_world).2
        = trace compact_world ++ evs
        /\ root_writes (js "/work/shop") evs
           = [patchInterceptorContent compact_module_source])
  /\ files (generateInterceptors permissive_env (js "/work/shop") compact_world).2
       !! js "/work/shop/src/app.module.ts"
     = Some (js "
import { APP_INTERCEPTOR } from '@nestjs/core';
import { ResponseInterceptor } from './common/interceptors/response/response.interceptor';
import { ErrorInterceptor } from './common/interceptors/error/error.interceptor';
@Module({
  imports:[ConfigModule],
  providers: [AppService,
    {
      provide: APP_INTERCEPTOR,
      useClass: ResponseInterceptor,
    },
    {
      provide: APP_INTERCEPTOR,
      useClass: ErrorInterceptor,
    },
  ],
})
export class AppModule {}").
Proof.
  split.
  { exists (js "@Module({
  imports:[ConfigModule],
  "), (js " "), (js "AppService"), (js ",
})
export class AppModule {}").
    split; [reflexivity | repeat constructor]. }
  split; [vm_compute; reflexivity|].
  destruct (interceptor_setup_outcome permissive_env (js "/work/shop") compact_world)
    as (evs & Ht & Hok & _).
  destruct Hok as (content & Hroot & _ & _ & Hfile & Hw & _); [vm_compute; reflexivity|].
  assert (rootAfterInterceptorCommands permissive_env (js "/work/shop") compact_world
          = Some compact_module_source) as E by (vm_compute; reflexivity).
  rewrite E in Hroot. injection Hroot as <-.
  split.
  - exists evs. split; [exact Ht | exact Hw].
  - change (js "/work/shop/src/app.module.ts") with (appModulePath (js "/work/shop")).
    rewrite Hfile. vm_compute. reflexivity.
Defined.

(** The run in which the second generation command fails. *)
Example second_interceptor_command_fails :
  let run := generateInterceptors (failing_env errorInterceptorCommand)
               (js "/work/shop") bare_world in
  run.1 = Err (ExecError errorInterceptorCommand (js "/work/shop"))
  /\ files run.2 = files bare_world
  /\ calls (trace run.2) = [(responseInterceptorCommand, true);
                            (errorInterceptorCommand, false)].
Proof. repeat split; vm_compute; reflexivity. Qed.

(* ===================================================================== *)
(** * Whole runs: order of the commands and failure *)
(* ===================================================================== *)

(** A handler that only rethrows changes nothing. *)
Lemma try_catch_rethrow {A} (m : M A) (w : World) :
  try_catch m (fun error => throw error) w = m w.
Proof. unfold try_catch, throw. destruct (m w) as [[a|e] w1]; reflexivity. Qed.

Lemma calls_app (evs1 evs2 : list Event) : calls (evs1 ++ evs2) = calls evs1 ++ calls evs2.
Proof. unfold calls. apply omap_app. Qed.

Section CallScript.
Context {A B : Type}.

Lemma call_script_ret (a : A) : call_script [] (ret a).
Proof. intros w. exists []. simpl. rewrite app_nil_r. auto. Qed.

Lemma call_script_bind (cs1 cs2 : list jsstring) (m : M A) (f : A -> M B) :
  call_script cs1 m -> (forall a, call_script cs2 (f a)) ->
  call_script (cs1 ++ cs2) (bind m f).
Proof.
  intros Hm Hf w. unfold bind. destruct (Hm w) as (evs1 & Ht1 & H1).
  destruct (m w) as [[a|e] w1]; cbn [fst snd] in *.
  - destruct (Hf a w1) as (evs2 & Ht2 & H2). exists (evs1 ++ evs2).
    split; [rewrite Ht2, Ht1, app_assoc; reflexivity|].
    rewrite calls_app, H1. destruct (f a w1).1 as [b|e].
    + rewrite H2, map_app. reflexivity.
    + destruct H2 as (n & Hn & H2). exists (length cs1 + n).
      split; [rewrite length_app; lia|]. rewrite take_app_add.
      destruct H2 as [-> | (c & Hc & ->)].
      * left. rewrite map_app. reflexivity.
      * right. exists c. split.
        -- rewrite lookup_app_r by lia.
           replace (length cs1 + n - length cs1) with n by lia. exact Hc.
        -- rewrite map_app, app_assoc. reflexivity.
  - exists evs1. split; [exact Ht1|].
    destruct H1 as (n & Hn & H1). exists n. split; [rewrite length_app; lia|].
    rewrite take_app_le by exact Hn.
    destruct H1 as [-> | (c & Hc & ->)]; [left; reflexivity|].
    right. exists c. split; [apply lookup_app_l_Some, Hc | reflexivity].
Qed.
End CallScript.

Section CallScriptGateways.
Variable env : Env.

Lemma call_script_ensureDir (path : jsstring) : call_script [] (ensureDir env path).
Proof.
  intros w. unfold ensureDir. destruct (dir_ok env path w); eexists;
    (split; [reflexivity|]); cbn; [reflexivity|].
  exists 0. split; [reflexivity | left; reflexivity].
Qed.

Lemma call_script_readFile (path : jsstring) : call_script [] (readFile env path).
Proof.
  intros w. unfold readFile. destruct (if read_ok env path w then _ else _); eexists;
    (split; [reflexivity|]); cbn; [reflexivity|].
  exists 0. split; [reflexivity | left; reflexivity].
Qed.

Lemma call_script_writeFile (path content : jsstring) :
  call_script [] (writeFile env path content).
Proof.
  intros w. unfold writeFile. destruct (write_ok env path content w); eexists;
    (split; [reflexivity|]); cbn; [reflexivity|].
  exists 0. split; [reflexivity | left; reflexivity].
Qed.

Lemma call_script_execPromise (command dir : jsstring) :
  call_script [command] (execPromise env command dir).
Proof.
  intros w. unfold execPromise. destruct (spawn env command dir w) as [[|] files'];
    eexists; (split; [reflexivity|]); cbn; [reflexivity|].
  exists 0. split; [simpl; lia|]. right. exists command. split; reflexivity.
Qed.

Lemma call_script_ext {A} (cs : list jsstring) (m m' : M A) :
  (forall w, m w = m' w) -> call_script cs m' -> call_script cs m.
Proof. intros E H w. rewrite E. apply H. Qed.

Lemma call_script_generateBaseStructure (appDir : jsstring) :
  call_script [newAppCommand (basename appDir)] (generateBaseStructure env appDir).
Proof.
  eapply call_script_ext; [intros w; apply try_catch_rethrow|].
  apply call_script_execPromise.
Qed.

Lemma call_script_generateModule (appDir name : jsstring) :
  call_script [resourceCommand name] (generateModule env appDir name).
Proof.
  unfold generateModule.
  apply (call_script_bind [] [_]); [apply call_script_ensureDir | intros _].
  eapply call_script_ext; [intros w; apply try_catch_rethrow|].
  apply call_script_execPromise.
Qed.

Lemma call_script_generateModules (appDir : jsstring) (names : list jsstring) :
  call_script (map resourceCommand names) (generateModules env appDir names).
Proof.
  unfold generateModules. destruct names as [|name names]; [apply call_script_ret|].
  cbn [length Nat.ltb Nat.leb]. generalize (name :: names). clear.
  intros names. induction names as [|name names IH]; [apply call_script_ret|].
  cbn [for_of map].
  apply (call_script_bind [_] _); [apply call_script_generateModule | intros _; exact IH].
Qed.

Lemma call_script_setupDatabase (appDir database orm : jsstring) :
  call_script [installCommand (getDatabaseDependencies database orm)]
    (setupDatabase env appDir database orm).
Proof.
  unfold setupDatabase, installDependencies, createDatabaseConfig,
    updateAppModuleForDatabase.
  apply (call_script_bind [_] []); [apply call_script_execPromise | intros _].
  apply (call_script_bind [] []); [|intros _].
  - apply (call_script_bind [] []); [apply call_script_ensureDir | intros _].
    apply call_script_writeFile.
  - apply (call_script_bind [] []); [apply call_script_readFile | intros ?].
    apply call_script_writeFile.
Qed.

Lemma call_script_generateInterceptors (appDir : jsstring) :
  call_script [responseInterceptorCommand; errorInterceptorCommand]
    (generateInterceptors env appDir).
Proof.
  unfold generateInterceptors, updateResponseInterceptor, updateErrorInterceptor,
    updateAppModuleForInterceptors.
  apply (call_script_bind [] [_; _]); [apply call_script_ensureDir | intros _].
  apply (call_script_bind [_] [_]); [apply call_script_execPromise | intros _].
  apply (call_script_bind [_] []); [apply call_script_execPromise | intros _].
  apply (call_script_bind [] []); [apply call_script_writeFile | intros _].
  apply (call_script_bind [] []); [apply call_script_writeFile | intros _].
  apply (call_script_bind [] []); [apply call_script_readFile | intros ?].
  apply call_script_writeFile.
Qed.
End CallScriptGateways.

(** X1.  Whatever the environment does, [generateApp] for a plain
    application name spawns its commands in one fixed order:
    [nest new <appName>], one resource per module in the order of the
    list, the installation of the dependencies, then the two interceptors
    when they are requested.  A run that succeeds has spawned all of them,
    each with success; a run that fails has spawned a prefix of them, and
    only the last one spawned can have failed. *)
Theorem generateApp_commands (env : Env) (appName : jsstring) (config : Config) :
  plain_name appName -> absolute_path (cwd env) ->
  call_script (appCommands appName config) (generateApp env appName config).
Proof.
  intros Hplain Hcwd.
  destruct (plain_name_paths (cwd env) appName Hplain
              (absolute_path_nonempty _ Hcwd)) as [Eb _].
  unfold generateApp, appCommands.
  apply (call_script_bind [] _); [apply call_script_ensureDir | intros _].
  apply (call_script_bind [_] _); [|intros _].
  { pose proof (call_script_generateBaseStructure env
                  (path_join [cwd env; appName])) as Hbase.
    rewrite Eb in Hbase. exact Hbase. }
  apply call_script_bind; [apply call_script_generateModules | intros _].
  apply (call_script_bind [_] _); [apply call_script_setupDatabase | intros _].
  destruct (interceptors config);
    [apply call_script_generateInterceptors | apply call_script_ret].
Qed.

Lemma generateApp_commands_witness :
  calls (trace (generateApp permissive_env (js "shop")
                  (mkConfig (ModString (js " users, ,orders ,")) (js "MySQL")
                     (js "TypeORM") true)
                  compact_world).2)
  = [(js "nest new shop --package-manager npm --skip-git --skip-install", true);
     (js "nest g resource modules/users", true);
     (js "nest g resource modules/orders", true);
     (js "npm install typeorm @nestjs/typeorm mysql2 --save", true);
     (js "nest g interceptor common/interceptors/response --no-spec", true);
     (js "nest g interceptor common/interceptors/error --no-spec", true)].
Proof.
  destruct (generateApp_commands permissive_env (js "shop")
              (mkConfig (ModString (js " users, ,orders ,")) (js "MySQL")
                 (js "TypeORM") true)
              plain_name_shop absolute_path_work compact_world)
    as (evs & Ht & Hc).
  assert ((generateApp permissive_env (js "shop")
             (mkConfig (ModString (js " users, ,orders ,")) (js "MySQL")
                (js "TypeORM") true)
             compact_world).1 = Ok tt) as Hok by (vm_compute; reflexivity).
  rewrite Hok in Hc. rewrite Ht. change (trace compact_world ++ evs) with evs.
  rewrite Hc. vm_compute. reflexivity.
Defined.

Section StopsAtFailure.
Context {A B : Type}.

Lemma stops_at_failure_ret (a : A) : stops_at_failure (ret a).
Proof. intros w. exists []. simpl. rewrite app_nil_r. auto. Qed.

Lemma stops_at_failure_bind (m : M A) (f : A -> M B) :
  stops_at_failure m -> (forall a, stops_at_failure (f a)) ->
  stops_at_failure (bind m f).
Proof.
  intros Hm Hf w. unfold bind. destruct (Hm w) as (evs1 & Ht1 & H1).
  destruct (m w) as [[a|e] w1]; cbn [fst snd] in *.
  - destruct (Hf a w1) as (evs2 & Ht2 & H2). exists (evs1 ++ evs2).
    split; [rewrite Ht2, Ht1, app_assoc; reflexivity|].
    destruct (f a w1).1 as [b|e].
    + apply Forall_app. auto.
    + destruct H2 as (evs0 & ev & -> & H0 & Hev & He).
      exists (evs1 ++ evs0), ev. rewrite app_assoc.
      split; [reflexivity|]. split; [apply Forall_app; auto | auto].
  - exists evs1. auto.
Qed.

Lemma stops_at_failure_ext (m m' : M A) :
  (forall w, m w = m' w) -> stops_at_failure m' -> stops_at_failure m.
Proof. intros E H w. rewrite E. apply H. Qed.
End StopsAtFailure.

Section StopsAtFailureGateways.
Variable env : Env.

Ltac one_effect :=
  eexists; (split; [reflexivity|]); cbn [fst snd];
  first [ eexists [], _; split; [reflexivity|]; split; [constructor|];
          split; reflexivity
        | repeat constructor ].

Lemma stops_at_failure_ensureDir (path : jsstring) : stops_at_failure (ensureDir env path).
Proof. intros w. unfold ensureDir. destruct (dir_ok env path w); one_effect. Qed.

Lemma stops_at_failure_readFile (path : jsstring) : stops_at_failure (readFile env path).
Proof.
  intros w. unfold readFile. destruct (if read_ok env path w then _ else _); one_effect.
Qed.

Lemma stops_at_failure_writeFile (path content : jsstring) :
  stops_at_failure (writeFile env path content).
Proof. intros w. unfold writeFile. destruct (write_ok env path content w); one_effect. Qed.

Lemma stops_at_failure_execPromise (command dir : jsstring) :
  stops_at_failure (execPromise env command dir).
Proof.
  intros w. unfold execPromise.
  destruct (spawn env command dir w) as [[|] files']; one_effect.
Qed.

Lemma stops_at_failure_for_of {X} (xs : list X) (body : X -> M unit) :
  (forall x, stops_at_failure (body x)) -> stops_at_failure (for_of xs body).
Proof.
  intros H. induction xs as [|x xs IH]; [apply stops_at_failure_ret|].
  cbn [for_of]. apply stops_at_failure_bind; [apply H | intros _; exact IH].
Qed.

Ltac stops :=
  repeat first
    [ apply stops_at_failure_bind; [|intros ?]
    | apply stops_at_failure_execPromise
    | apply stops_at_failure_ensureDir
    | apply stops_at_failure_readFile
    | apply stops_at_failure_writeFile
    | apply stops_at_failure_ret
    | eapply stops_at_failure_ext; [intros ?; apply try_catch_rethrow|] ].

Lemma stops_at_failure_generateModules (appDir : jsstring) (names : list jsstring) :
  stops_at_failure (generateModules env appDir names).
Proof.
  unfold generateModules. destruct (0 <? length names)%nat; [|stops].
  apply stops_at_failure_for_of. intros name. unfold generateModule. stops.
Qed.

(** X2.  [generateApp] stops at the first effect that fails, whichever it
    is: a run that succeeds has only issued effects that went through; a
    run that fails issued nothing after the one effect that failed, and it
    is rejected with the error of that effect (the catch blocks of
    [generateBaseStructure] and [generateModule] pass it on). *)
Theorem generateApp_stops_at_first_failure (appName : jsstring) (config : Config) :
  stops_at_failure (generateApp env appName config).
Proof.
  unfold generateApp.
  apply stops_at_failure_bind; [apply stops_at_failure_ensureDir | intros _].
  apply stops_at_failure_bind; [unfold generateBaseStructure; stops | intros _].
  apply stops_at_failure_bind; [apply stops_at_failure_generateModules | intros _].
  apply stops_at_failure_bind; [|intros _].
  - unfold setupDatabase, installDependencies, createDatabaseConfig,
      updateAppModuleForDatabase. stops.
  - destruct (interceptors config); [|stops].
    unfold generateInterceptors, updateResponseInterceptor, updateErrorInterceptor,
      updateAppModuleForInterceptors. stops.
Qed.
End StopsAtFailureGateways.

Lemma emits_for_of {X} (P : Event -> Prop) (xs : list X) (body : X -> M unit) :
  (forall x, x ∈ xs -> emits P (body x)) -> emits P (for_of xs body).
Proof.
  induction xs as [|x xs IH]; intros H; [apply emits_ret|].
  cbn [for_of]. apply emits_bind.
  - apply H. apply list_elem_of_here.
  - intros _. apply IH. intros y Hy. apply H. apply list_elem_of_further, Hy.
Qed.

(** X3.  [generateApp] for a plain application name issues no effect
    outside a fixed set: it ensures only the application, modules, config
    and (when requested) interceptors directories; it spawns
    [nest new <appName>] in the working directory of the process and every
    other command in the application directory; it reads only the root
    module; it writes only the config file (with the rendered
    configuration), the root module, and, when interceptors are requested,
    the two interceptor files with their fixed bodies.  Without the
    interceptors flag no interceptor command is spawned and no interceptor
    file is written. *)
Theorem generateApp_effects_are_confined (env : Env) (appName : jsstring)
    (config : Config) :
  plain_name appName -> absolute_path (cwd env) ->
  emits (allowed_event env appName config) (generateApp env appName config).
Proof.
  intros Hplain Hcwd.
  destruct (plain_name_paths (cwd env) appName Hplain
              (absolute_path_nonempty _ Hcwd)) as [Eb Ed].
  unfold generateApp.
  apply emits_bind; [apply emits_ensureDir; intros ok; cbn; auto | intros _].
  apply emits_bind; [|intros _].
  { unfold generateBaseStructure. cbv zeta. rewrite Eb, Ed.
    apply emits_try_catch; [|intros e; apply emits_throw].
    apply emits_execPromise. intros ok. cbn. auto. }
  apply emits_bind; [|intros _].
  { unfold generateModules. destruct (0 <? _)%nat; [|apply emits_ret].
    apply emits_for_of. intros name Hname. unfold generateModule.
    apply emits_bind; [apply emits_ensureDir; intros ok; cbn; auto | intros _].
    apply emits_try_catch; [|intros e; apply emits_throw].
    apply emits_execPromise. intros ok. cbn. right. split; [reflexivity|].
    right. left. exists name. auto. }
  apply emits_bind; [|intros _].
  { unfold setupDatabase, installDependencies, createDatabaseConfig,
      updateAppModuleForDatabase.
    apply emits_bind; [apply emits_execPromise; intros ok; cbn; auto | intros _].
    apply emits_bind; [|intros _].
    - apply emits_bind; [apply emits_ensureDir; intros ok; cbn; auto | intros _].
      apply emits_writeFile. intros ok. cbn. auto.
    - apply emits_bind; [apply emits_readFile; intros ok; reflexivity | intros ?].
      apply emits_writeFile. intros ok. cbn. auto. }
  destruct (interceptors config) eqn:Hi; [|apply emits_ret].
  unfold generateInterceptors, updateResponseInterceptor, updateErrorInterceptor,
    updateAppModuleForInterceptors.
  apply emits_bind; [apply emits_ensureDir; intros ok; cbn; auto 6 | intros _].
  apply emits_bind; [apply emits_execPromise; intros ok; cbn; auto 8 | intros _].
  apply emits_bind; [apply emits_execPromise; intros ok; cbn; auto 8 | intros _].
  apply emits_bind; [apply emits_writeFile; intros ok; cbn; auto 8 | intros _].
  apply emits_bind; [apply emits_writeFile; intros ok; cbn; auto 8 | intros _].
  apply emits_bind; [apply emits_readFile; intros ok; reflexivity | intros ?].
  apply emits_writeFile. intros ok. cbn. auto.
Qed.

Lemma generateApp_effects_witness :
  Forall (allowed_event permissive_env (js "shop")
            (mkConfig (ModArray [js "users"]) (js "MySQL") (js "TypeORM") false))
    (trace (generateApp permissive_env (js "shop")
              (mkConfig (ModArray [js "users"]) (js "MySQL") (js "TypeORM") false)
              compact_world).2)
  /\ allowed_event permissive_env (js "shop")
       (mkConfig (ModArray [js "users"]) (js "MySQL") (js "TypeORM") false)
       (EvExec (js "nest new shop --package-manager npm --skip-git --skip-install")
          (js "/work") true)
  /\ ~ allowed_event permissive_env (js "shop")
         (mkConfig (ModArray [js "users"]) (js "MySQL") (js "TypeORM") false)
         (EvExec (js "nest new shop --package-manager npm --skip-git --skip-install")
            (js "/work/shop") true).
Proof.
  split; [|split].
  - destruct (generateApp_effects_are_confined permissive_env (js "shop")
                (mkConfig (ModArray [js "users"]) (js "MySQL") (js "TypeORM") false)
                plain_name_shop absolute_path_work compact_world)
      as (evs & Ht & Hall).
    rewrite Ht. exact Hall.
  - left. split; reflexivity.
  - intros [[_ H] | [_ [H | [(name & Hname & H) | [H _]]]]];
      discriminate H.
Defined.

(* ===================================================================== *)
(** * The database stage *)
(* ===================================================================== *)

Lemma configPath_not_root (appDir : jsstring) : configPath appDir <> appModulePath appDir.
Proof.
  unfold configPath, appModulePath, path_join. cbn [join].
  rewrite <- !app_assoc. intros H. apply app_inv_head in H. discriminate.
Qed.

Section DatabaseStage.
Variable env : Env.
Variables appDir database orm : jsstring.

Ltac db_step E :=
  match type of E with
  | context [dir_ok env ?p ?w] => destruct (dir_ok env p w) eqn:?
  | context [spawn env ?c ?d ?w] => destruct (spawn env c d w) as [[|] ?] eqn:?
  | context [write_ok env ?p ?c ?w] => destruct (write_ok env p c w) eqn:?
  end; cbv beta iota in E.

Ltac db_failed E :=
  injection E as <- <-; eexists;
  (split; [unfold log; cbn [trace]; rewrite <- ?app_assoc; reflexivity|]);
  split; [discriminate|].

Lemma setupDatabase_outcome (w w' : World) (r : Result unit) :
  setupDatabase env appDir database orm w = (r, w') ->
  exists evs,
    trace w' = trace w ++ evs
    /\ (r = Ok tt ->
        exists content,
          evs = [EvExec (installCommand (getDatabaseDependencies database orm))
                   appDir true;
                 EvEnsureDir (path_join [appDir; js "src"; js "config"]) true;
                 EvWriteFile (configPath appDir) (configContent database orm) true;
                 EvReadFile (appModulePath appDir) true;
                 EvWriteFile (appModulePath appDir) (patchDbContent orm content) true]
          /\ (spawn env (installCommand (getDatabaseDependencies database orm))
                appDir w).2 !! appModulePath appDir = Some content
          /\ files w' !! configPath appDir = Some (configContent database orm)
          /\ files w' !! appModulePath appDir = Some (patchDbContent orm content))
    /\ (EvExec (installCommand (getDatabaseDependencies database orm)) appDir false
          ∈ evs ->
        r = Err (ExecError (installCommand (getDatabaseDependencies database orm))
                   appDir)
        /\ evs = [EvExec (installCommand (getDatabaseDependencies database orm))
                    appDir false])
    /\ (EvReadFile (appModulePath appDir) false ∈ evs ->
        r = Err (FsError (appModulePath appDir))
        /\ evs = [EvExec (installCommand (getDatabaseDependencies database orm))
                    appDir true;
                  EvEnsureDir (path_join [appDir; js "src"; js "config"]) true;
                  EvWriteFile (configPath appDir) (configContent database orm) true;
                  EvReadFile (appModulePath appDir) false]
        /\ files w' !! configPath appDir = Some (configContent database orm))
    /\ (r <> Ok tt -> root_writes appDir evs = []).
Proof.
  intros E. pose proof (configPath_not_root appDir) as Hcr.
  unfold setupDatabase, installDependencies in E.
  unfold bind at 1 in E. unfold execPromise in E. db_step E.
  2:{ db_failed E. split; [auto|]. split; [|reflexivity]. intros H. no_such_call H. }
  unfold bind at 1 in E. unfold createDatabaseConfig in E.
  unfold bind at 1 in E. unfold ensureDir in E. db_step E.
  2:{ db_failed E. split; [intros H; no_such_call H|].
      split; [|reflexivity]. intros H. no_such_call H. }
  unfold writeFile at 1 in E. db_step E.
  2:{ db_failed E. split; [intros H; no_such_call H|].
      split; [|reflexivity]. intros H. no_such_call H. }
  rewrite updateAppModuleForDatabase_run in E. unfold rewrite_run in E.
  unfold log in E. cbn [files trace] in E. cbv zeta in E.
  destruct (if read_ok env _ _ then _ else _) as [content|] eqn:Hread.
  2:{ db_failed E. split; [intros H; no_such_call H|]. split.
      - intros _. split; [reflexivity|]. split; [reflexivity|].
        cbn [files]. apply lookup_insert_eq.
      - intros _. cbn [app root_writes]. rewrite (str_eqb_neq _ _ Hcr). reflexivity. }
  db_step E.
  2:{ injection E as <- <-. eexists.
      split; [cbn [trace]; rewrite <- ?app_assoc; reflexivity|].
      split; [discriminate|]. split; [intros H; no_such_call H|]. split.
      - intros H. no_such_call H.
      - intros _. cbn [app root_writes]. rewrite (str_eqb_neq _ _ Hcr). reflexivity. }
  injection E as <- <-. eexists.
  split; [cbn [trace]; rewrite <- ?app_assoc; reflexivity|].
  split; [|split; [|split]].
  - intros _. exists content. split; [reflexivity|]. cbn [files snd].
    rewrite lookup_insert_eq, lookup_insert_ne by congruence.
    rewrite lookup_insert_eq. split; [|auto].
    destruct (read_ok env _ _); [|discriminate].
    rewrite lookup_insert_ne in Hread by exact Hcr. exact Hread.
  - intros H. no_such_call H.
  - intros H. no_such_call H.
  - intros H. contradiction.
Qed.
End DatabaseStage.

(** X4.  A database setup that succeeds has issued exactly five effects, in
    this order: the installation, the config directory, the config file,
    the read of the root module and its write.  Afterwards the config file
    holds the rendered configuration, and the root module holds the
    patched text of the root module as the installation command left
    it. *)
Theorem database_setup_success (env : Env) (appDir database orm : jsstring) (w : World) :
  (setupDatabase env appDir database orm w).1 = Ok tt ->
  exists content,
    trace (setupDatabase env appDir database orm w).2
    = trace w ++
      [EvExec (installCommand (getDatabaseDependencies database orm)) appDir true;
       EvEnsureDir (path_join [appDir; js "src"; js "config"]) true;
       EvWriteFile (configPath appDir) (configContent database orm) true;
       EvReadFile (appModulePath appDir) true;
       EvWriteFile (appModulePath appDir) (patchDbContent orm content) true]
    /\ (spawn env (installCommand (getDatabaseDependencies database orm)) appDir w).2
         !! appModulePath appDir = Some content
    /\ files (setupDatabase env appDir database orm w).2 !! configPath appDir
       = Some (configContent database orm)
    /\ files (setupDatabase env appDir database orm w).2 !! appModulePath appDir
       = Some (patchDbContent orm content).
Proof.
  destruct (setupDatabase env appDir database orm w) as [r w'] eqn:E.
  cbn [fst snd]. intros Hr.
  destruct (setupDatabase_outcome env appDir database orm w w' r E)
    as (evs & Ht & Hok & _).
  destruct (Hok Hr) as (content & -> & H0 & H1 & H2). exists content. auto.
Qed.

Lemma database_setup_success_witness :
  exists content,
    files (setupDatabase permissive_env (js "/work/shop") (js "MySQL") (js "Sequelize")
             compact_world).2 !! appModulePath (js "/work/shop")
    = Some (patchDbContent (js "Sequelize") content).
Proof.
  destruct (database_setup_success permissive_env (js "/work/shop") (js "MySQL")
              (js "Sequelize") compact_world) as (content & _ & _ & _ & H).
  - vm_compute. reflexivity.
  - exists content. exact H.
Defined.

(** X5.  Nothing is rolled back when the database setup fails.  When the
    installation fails, no other effect is issued.  When the root module
    cannot be read, the setup fails with the error of that read after the
    dependencies were installed and the config file written, which stays.
    In every failing run the root module is left unwritten. *)
Theorem database_setup_failure_leaves_partial_state
    (env : Env) (appDir database orm : jsstring) (w : World) :
  exists evs,
    trace (setupDatabase env appDir database orm w).2 = trace w ++ evs
    /\ (EvExec (installCommand (getDatabaseDependencies database orm)) appDir false
          ∈ evs ->
        (setupDatabase env appDir database orm w).1
        = Err (ExecError (installCommand (getDatabaseDependencies database orm)) appDir)
        /\ evs = [EvExec (installCommand (getDatabaseDependencies database orm))
                    appDir false])
    /\ (EvReadFile (appModulePath appDir) false ∈ evs ->
        (setupDatabase env appDir database orm w).1 = Err (FsError (appModulePath appDir))
        /\ evs = [EvExec (installCommand (getDatabaseDependencies database orm))
                    appDir true;
                  EvEnsureDir (path_join [appDir; js "src"; js "config"]) true;
                  EvWriteFile (configPath appDir) (configContent database orm) true;
                  EvReadFile (appModulePath appDir) false]
        /\ files (setupDatabase env appDir database orm w).2 !! configPath appDir
           = Some (configContent database orm))
    /\ ((setupDatabase env appDir database orm w).1 <> Ok tt ->
        root_writes appDir evs = []).
Proof.
  destruct (setupDatabase env appDir database orm w) as [r w'] eqn:E.
  cbn [fst snd].
  destruct (setupDatabase_outcome env appDir database orm w w' r E)
    as (evs & Ht & _ & H1 & H2 & H3).
  exists evs. auto.
Qed.

Lemma database_setup_failure_witness :
  (setupDatabase permissive_env (js "/work/shop") (js "MySQL") (js "Sequelize")
     empty_world).1 = Err (FsError (appModulePath (js "/work/shop")))
  /\ files (setupDatabase permissive_env (js "/work/shop") (js "MySQL") (js "Sequelize")
              empty_world).2 !! configPath (js "/work/shop")
     = Some (configContent (js "MySQL") (js "Sequelize")).
Proof.
  destruct (database_setup_failure_leaves_partial_state permissive_env (js "/work/shop")
              (js "MySQL") (js "Sequelize") empty_world) as (evs & Ht & _ & H & _).
  vm_compute in Ht. subst evs.
  destruct H as (H1 & _ & H2); [vm_compute; do 3 apply list_elem_of_further;
                                apply list_elem_of_here|].
  split; assumption.
Defined.

(* ===================================================================== *)
(** * The two mutation steps together, and run again *)
(* ===================================================================== *)

Lemma dbImportStatement_no_start_providers (orm : jsstring) :
  no_start (js "providers" ++ [colon]) (dbImportStatement orm ++ [newline]) = true.
Proof.
  apply (orm_cases (fun o => no_start _ (dbImportStatement o ++ [newline]) = true)).
  - intros ->. vm_compute. reflexivity.
  - intros ->. vm_compute. reflexivity.
  - intros ->. vm_compute. reflexivity.
  - intros E1 E2 E3. unfold dbImportStatement. rewrite E1, E2, E3. reflexivity.
Qed.

(** Text in front that cannot hold the start of a block is left alone by a
    block patch, and does not change what the patch does behind it. *)
Lemma patchImportsBlock_skip (orm p s : jsstring) :
  no_start (js "imports" ++ [colon]) p = true ->
  patchImportsBlock orm (p ++ s) = p ++ patchImportsBlock orm s.
Proof.
  intros H. unfold patchImportsBlock. rewrite !replace_imports, find_block_skip by exact H.
  destruct (find_block (js "imports") s) as [[[[pre w] b] p']|];
    [rewrite <- app_assoc|]; reflexivity.
Qed.

Lemma patchProvidersBlock_skip (p s : jsstring) :
  no_start (js "providers" ++ [colon]) p = true ->
  patchProvidersBlock (p ++ s) = p ++ patchProvidersBlock s.
Proof.
  intros H. unfold patchProvidersBlock.
  rewrite !replace_providers, find_block_skip by exact H.
  destruct (find_block (js "providers") s) as [[[[pre w] b] p']|];
    [rewrite <- app_assoc|]; reflexivity.
Qed.

Lemma patchDbContent_prepend (orm content : jsstring) :
  patchDbContent orm content
  = dbImportStatement orm ++ [newline] ++ patchImportsBlock orm content.
Proof.
  change (patchDbContent orm content)
    with (patchImportsBlock orm (dbImportStatement orm ++ [newline] ++ content)).
  rewrite (app_assoc (dbImportStatement orm) [newline] content).
  rewrite (patchImportsBlock_skip orm (dbImportStatement orm ++ [newline]) content)
    by apply dbImportStatement_no_start.
  rewrite <- app_assoc. reflexivity.
Qed.

Lemma patchInterceptorContent_prepend (content : jsstring) :
  patchInterceptorContent content
  = interceptorImportStatement ++ [newline] ++ patchProvidersBlock content.
Proof.
  change (patchInterceptorContent content)
    with (patchProvidersBlock (interceptorImportStatement ++ [newline] ++ content)).
  rewrite (app_assoc interceptorImportStatement [newline] content).
  rewrite (patchProvidersBlock_skip (interceptorImportStatement ++ [newline]) content)
    by apply interceptorImportStatement_no_start.
  rewrite <- app_assoc. reflexivity.
Qed.

(** X6.  The import statements never take part in a match.  After the
    database step and then the interceptor step, the root module is the
    interceptor imports, the ORM imports, and then the original text with
    its imports block and its providers block patched, whatever the
    original text is. *)
Theorem root_module_after_both_steps (orm content : jsstring) :
  patchInterceptorContent (patchDbContent orm content)
  = interceptorImportStatement ++ [newline]
    ++ dbImportStatement orm ++ [newline]
    ++ patchProvidersBlock (patchImportsBlock orm content).
Proof.
  rewrite patchInterceptorContent_prepend, patchDbContent_prepend.
  rewrite (app_assoc (dbImportStatement orm) [newline]).
  rewrite (patchProvidersBlock_skip (dbImportStatement orm ++ [newline]))
    by apply dbImportStatement_no_start_providers.
  rewrite <- app_assoc. reflexivity.
Qed.

(** X7.  Neither mutation step is idempotent: applied to its own output it
    puts its import statement in front a second time, and patches the
    first block of the already patched text again. *)
Theorem mutation_steps_run_twice (orm content : jsstring) :
  patchDbContent orm (patchDbContent orm content)
  = dbImportStatement orm ++ [newline] ++ dbImportStatement orm ++ [newline]
    ++ patchImportsBlock orm (patchImportsBlock orm content)
  /\ patchInterceptorContent (patchInterceptorContent content)
     = interceptorImportStatement ++ [newline]
       ++ interceptorImportStatement ++ [newline]
       ++ patchProvidersBlock (patchProvidersBlock content).
Proof.
  split.
  - rewrite (patchDbContent_prepend orm (patchDbContent orm content)).
    rewrite (patchDbContent_prepend orm content).
    rewrite (app_assoc (dbImportStatement orm) [newline]
               (patchImportsBlock orm content)).
    rewrite (patchImportsBlock_skip orm (dbImportStatement orm ++ [newline]))
      by apply dbImportStatement_no_start.
    rewrite <- !app_assoc. reflexivity.
  - rewrite (patchInterceptorContent_prepend (patchInterceptorContent content)).
    rewrite (patchInterceptorContent_prepend content).
    rewrite (app_assoc interceptorImportStatement [newline]
               (patchProvidersBlock content)).
    rewrite (patchProvidersBlock_skip (interceptorImportStatement ++ [newline]))
      by apply interceptorImportStatement_no_start.
    rewrite <- !app_assoc. reflexivity.
Qed.

(* ===================================================================== *)
(** * The resolver on arbitrary names *)
(* ===================================================================== *)

(** A name selects one of the three cases of a [switch], or none. *)
Lemma switch_cases (a b c : jsstring) (P : jsstring -> Prop) (x : jsstring) :
  (x = a -> P x) -> (x = b -> P x) -> (x = c -> P x) ->
  (str_eqb x a = false -> str_eqb x b = false -> str_eqb x c = false -> P x) ->
  P x.
Proof.
  intros H1 H2 H3 H4.
  destruct (str_eqb x a) eqn:E1; [apply H1, str_eqb_eq, E1|].
  destruct (str_eqb x b) eqn:E2; [apply H2, str_eqb_eq, E2|].
  destruct (str_eqb x c) eqn:E3; [apply H3, str_eqb_eq, E3|].
  apply H4; reflexivity.
Qed.

(** Settles an equivalence of two closed decidable propositions. *)
Ltac closed_iff :=
  split; intros H;
  first [ solve [compute_done] | exfalso; revert H; compute_done ].

(** The resolver, with the names compared by [str_eqb] only. *)
Lemma resolver_boolean (database orm : jsstring) :
  NoDup (getDatabaseDependencies database orm)
  /\ (js "pg" ∈ getDatabaseDependencies database orm
      <-> str_eqb database (js "PostgreSQL") = true)
  /\ (js "mongodb" ∈ getDatabaseDependencies database orm
      <-> str_eqb database (js "MongoDB") = true
          /\ str_eqb orm (js "Mongoose") = false)
  /\ (js "mysql2" ∈ getDatabaseDependencies database orm
      <-> str_eqb database (js "MySQL") = true)
  /\ length (getDatabaseDependencies database orm) <= 4
  /\ Forall (fun package => space ∉ package) (getDatabaseDependencies database orm).
Proof.
  pattern orm.
  apply (switch_cases (js "TypeORM") (js "Mongoose") (js "Sequelize"));
    [intros -> | intros -> | intros -> | intros O1 O2 O3];
    (pattern database;
     apply (switch_cases (js "PostgreSQL") (js "MongoDB") (js "MySQL"));
     [intros -> | intros -> | intros -> | intros D1 D2 D3]);
    unfold getDatabaseDependencies;
    rewrite ?O1, ?O2, ?O3, ?D1, ?D2, ?D3;
    (split; [compute_done|]);
    (split; [closed_iff|]); (split; [closed_iff|]); (split; [closed_iff|]);
    (split; compute_done).
Qed.

(** X8.  For any two names, not only the choices of the prompt: the
    resolved list has no duplicates and at most four packages, none with a
    space in it, and its driver is decided by the exact database name:
    [pg] is in it exactly for [PostgreSQL], [mysql2] exactly for [MySQL],
    and [mongodb] exactly for [MongoDB] with an ORM other than
    [Mongoose]. *)
Theorem resolver_on_any_names (database orm : jsstring) :
  NoDup (getDatabaseDependencies database orm)
  /\ (js "pg" ∈ getDatabaseDependencies database orm <-> database = js "PostgreSQL")
  /\ (js "mongodb" ∈ getDatabaseDependencies database orm
      <-> database = js "MongoDB" /\ orm <> js "Mongoose")
  /\ (js "mysql2" ∈ getDatabaseDependencies database orm <-> database = js "MySQL")
  /\ length (getDatabaseDependencies database orm) <= 4
  /\ Forall (fun package => space ∉ package) (getDatabaseDependencies database orm).
Proof.
  destruct (resolver_boolean database orm) as (H1 & H2 & H3 & H4 & H5 & H6).
  split; [exact H1|]. split; [|split; [|split; [|split; [exact H5 | exact H6]]]].
  - rewrite H2. apply str_eqb_eq.
  - rewrite H3. split.
    + intros [Hd Ho]. split; [apply str_eqb_eq, Hd|].
      intros E. apply str_eqb_eq in E. congruence.
    + intros [Hd Ho]. split; [apply str_eqb_eq, Hd | apply str_eqb_neq, Ho].
  - rewrite H4. apply str_eqb_eq.
Qed.

(* ===================================================================== *)
(** * Joining and splitting again *)
(* ===================================================================== *)

Lemma split_on_piece (sep : code_unit) (p : jsstring) :
  sep ∉ p -> split_on sep p = [p].
Proof.
  induction p as [|c p IH]; intros H; [reflexivity|].
  rewrite not_elem_of_cons in H. destruct H as [Hc Hp]. simpl.
  assert (cu_eqb c sep = false) as -> by (apply cu_eqb_neq; congruence).
  rewrite (IH Hp). reflexivity.
Qed.

Lemma split_on_app_sep (sep : code_unit) (p s : jsstring) :
  sep ∉ p -> split_on sep (p ++ sep :: s) = p :: split_on sep s.
Proof.
  induction p as [|c p IH]; intros H.
  - simpl. rewrite cu_eqb_refl. reflexivity.
  - rewrite not_elem_of_cons in H. destruct H as [Hc Hp]. simpl.
    assert (cu_eqb c sep = false) as -> by (apply cu_eqb_neq; congruence).
    rewrite (IH Hp). reflexivity.
Qed.

(** Pieces without the separator, joined and split again, are the same
    pieces; there must be at least one. *)
Lemma split_on_join (sep : code_unit) (pieces : list jsstring) :
  pieces <> [] -> Forall (fun p => sep ∉ p) pieces ->
  split_on sep (join [sep] pieces) = pieces.
Proof.
  intros Hne H. induction H as [|p ps Hp Hps IH]; [congruence|].
  destruct ps as [|q ps].
  - simpl. apply split_on_piece, Hp.
  - cbn [join]. cbn [app]. rewrite split_on_app_sep by exact Hp.
    f_equal. apply IH. discriminate.
Qed.

Lemma join_cons (sep p : jsstring) (pieces : list jsstring) :
  pieces <> [] -> join sep (p :: pieces) = p ++ sep ++ join sep pieces.
Proof. destruct pieces; [congruence | reflexivity]. Qed.

Lemma join_snoc (sep : jsstring) (pieces : list jsstring) (x : jsstring) :
  pieces <> [] -> join sep (pieces ++ [x]) = join sep pieces ++ sep ++ x.
Proof.
  induction pieces as [|p ps IH]; intros Hne; [congruence|].
  destruct ps as [|q ps]; [reflexivity|].
  change ((p :: q :: ps) ++ [x]) with (p :: (q :: ps) ++ [x]).
  cbn [join app] in *. rewrite IH by discriminate.
  cbn [join]. rewrite <- !app_assoc. reflexivity.
Qed.

Lemma trim_start_fixed (s : jsstring) :
  (forall c r, s = c :: r -> is_space c = false) -> trim_start s = s.
Proof.
  destruct s as [|c s]; intros H; [reflexivity|]. simpl.
  rewrite (H c s eq_refl). reflexivity.
Qed.

(** A text without white space at either end is its own trimmed form. *)
Lemma trim_fixed (s : jsstring) :
  (forall c r, s = c :: r -> is_space c = false) ->
  (forall c r, s = r ++ [c] -> is_space c = false) ->
  trim s = s.
Proof.
  intros Hhead Hlast. unfold trim, trim_end. rewrite (trim_start_fixed s Hhead).
  rewrite trim_start_fixed; [apply rev_involutive|].
  intros c r E. apply (Hlast c (rev r)).
  rewrite <- (rev_involutive s), E. reflexivity.
Qed.

(** Every normalised name is not empty, has no comma and no white space at
    either end. *)
Lemma normalized_names (text : jsstring) :
  Forall (fun name =>
            name <> []
            /\ (comma ∉ name)
            /\ (forall c r, name = c :: r -> is_space c = false)
            /\ (forall c r, name = r ++ [c] -> is_space c = false))
    (normalize_modules (ModString text)).
Proof.
  apply Forall_forall. intros name Hin. cbn [normalize_modules] in Hin.
  apply list_elem_of_In, filter_In in Hin as [Hin Hne].
  apply in_map_iff in Hin as (piece & <- & Hp).
  destruct (trim_spec piece) as (_ & Hhead & Hlast).
  split; [|split; [|split]].
  - intros E. unfold is_nonempty in Hne. rewrite E in Hne. discriminate.
  - intros Hc. apply trim_elements in Hc.
    pose proof (split_on_no_sep comma text) as Hf.
    rewrite Forall_forall in Hf. apply (Hf piece); [apply list_elem_of_In, Hp | exact Hc].
  - exact Hhead.
  - exact Hlast.
Qed.

(** X9.  The normalisation of the modules is stable: the names it returns,
    written again as one comma-separated text, are normalised to
    themselves.  The filter of the prompt and the conversion in
    [generateApp] compute the same names. *)
Theorem normalized_modules_round_trip (text : jsstring) :
  normalize_modules (ModString (join [comma] (normalize_modules (ModString text))))
  = normalize_modules (ModString text)
  /\ normalize_modules (ModArray (modulesFilter text))
     = normalize_modules (ModString text).
Proof.
  split; [|reflexivity].
  pose proof (normalized_names text) as Hnames.
  remember (normalize_modules (ModString text)) as names eqn:E. clear E.
  destruct names as [|n0 names]; [vm_compute; reflexivity|].
  cbn [normalize_modules]. rewrite split_on_join.
  - assert (map trim (n0 :: names) = n0 :: names) as ->.
    { rewrite <- (map_id (n0 :: names)) at 2. apply map_ext_Forall.
      eapply Forall_impl; [exact Hnames|]. cbv beta.
      intros name (_ & _ & Hh & Hl). apply trim_fixed; assumption. }
    apply forallb_filter_id. apply forallb_forall. intros name Hin.
    rewrite Forall_forall in Hnames.
    destruct (Hnames name) as (Hne & _); [apply list_elem_of_In, Hin|].
    unfold is_nonempty. destruct name; [congruence | reflexivity].
  - discriminate.
  - eapply Forall_impl; [exact Hnames|]. cbv beta. intros name (_ & Hc & _). exact Hc.
Qed.

(** X10.  Whenever the resolver returns at least one package, the
    installation command, cut at its spaces, is [npm], [install], the
    resolved packages in their order, and [--save]: each package is one
    argument of the command.  With no package at all the command has an
    empty argument in that place. *)
Theorem install_command_arguments (database orm : jsstring) :
  (getDatabaseDependencies database orm <> [] ->
   split_on space (installCommand (getDatabaseDependencies database orm))
   = [js "npm"; js "install"] ++ getDatabaseDependencies database orm ++ [js "--save"])
  /\ (getDatabaseDependencies database orm = [] ->
      split_on space (installCommand (getDatabaseDependencies database orm))
      = [js "npm"; js "install"; []; js "--save"]).
Proof.
  split.
  - intros Hne.
    destruct (resolver_boolean database orm) as (_ & _ & _ & _ & _ & Hsp).
    remember (getDatabaseDependencies database orm) as deps eqn:E. clear E.
    assert (installCommand deps
            = join [space] ([js "npm"; js "install"] ++ deps ++ [js "--save"])) as ->.
    { unfold installCommand. cbn [app].
      rewrite (join_cons [space] (js "npm")) by discriminate.
      rewrite (join_cons [space] (js "install"))
        by (intros H; apply app_eq_nil in H as [_ H]; discriminate H).
      rewrite join_snoc by exact Hne. rewrite <- ?app_assoc. reflexivity. }
    apply split_on_join; [intros H; discriminate H|]. cbn [app].
    constructor; [compute_done|]. constructor; [compute_done|].
    apply Forall_app. split; [exact Hsp|].
    constructor; [compute_done | constructor].
  - intros ->. vm_compute. reflexivity.
Qed.

Lemma install_command_arguments_witness :
  split_on space (installCommand (getDatabaseDependencies (js "MySQL") (js "Sequelize")))
  = [js "npm"; js "install"; js "sequelize"; js "@nestjs/sequelize";
     js "sequelize-typescript"; js "mysql2"; js "--save"].
Proof.
  refine (eq_trans (proj1 (install_command_arguments (js "MySQL") (js "Sequelize")) _) _).
  - vm_compute. discriminate.
  - vm_compute. reflexivity.
Defined.

(* ===================================================================== *)
(** * The base structure *)
(* ===================================================================== *)

(** X11.  For an application name that is one plain path segment,
    [generateBaseStructure] recovers the name and the working directory
    from the joined application directory: it spawns
    [nest new <appName> ...] in the working directory of the process, and
    fails exactly when that command fails. *)
Theorem base_structure_runs_in_working_directory
    (env : Env) (appName : jsstring) (w : World) :
  slash ∉ appName -> appName <> [] -> appName <> js "." -> appName <> js ".." ->
  cwd env <> [] ->
  basename (path_join [cwd env; appName]) = appName
  /\ dirname (path_join [cwd env; appName]) = cwd env
  /\ generateBaseStructure env (path_join [cwd env; appName]) w
     = execPromise env (newAppCommand appName) (cwd env) w.
Proof.
  intros Hs _ _ _ Hc.
  assert (split_last (path_join [cwd env; appName]) = Some (cwd env, appName)) as E.
  { unfold path_join. cbn [join app]. apply split_last_app, Hs. }
  assert (basename (path_join [cwd env; appName]) = appName) as Hb.
  { unfold basename. rewrite E. reflexivity. }
  assert (dirname (path_join [cwd env; appName]) = cwd env) as Hd.
  { unfold dirname. rewrite E. destruct (cwd env); [congruence | reflexivity]. }
  split; [exact Hb|]. split; [exact Hd|].
  unfold generateBaseStructure. rewrite try_catch_rethrow, Hb, Hd. reflexivity.
Qed.

Lemma base_structure_witness :
  generateBaseStructure permissive_env (path_join [cwd permissive_env; js "shop"])
    bare_world
  = execPromise permissive_env (newAppCommand (js "shop")) (js "/work") bare_world.
Proof.
  refine (proj2 (proj2 (base_structure_runs_in_working_directory permissive_env
                          (js "shop") bare_world _ _ _ _ _))).
  - compute_done.
  - discriminate.
  - discriminate.
  - discriminate.
  - discriminate.
Defined.

(* ===================================================================== *)
(** * Patching a patched text *)
(* ===================================================================== *)

Lemma block_here_exact (keyword ws body post : jsstring) :
  all_space ws -> rbracket ∉ body ->
  block_here keyword
    (keyword ++ [colon] ++ ws ++ [lbracket] ++ body ++ [rbracket] ++ post)
  = Some (ws, body, post).
Proof.
  intros Hws Hb. unfold block_here.
  rewrite (app_assoc keyword [colon]), strip_prefix_app.
  rewrite (span_space_app ws).
  - simpl. rewrite ?cu_eqb_refl.
    pose proof (split_rbracket_first body post Hb) as E. simpl in E. rewrite E.
    reflexivity.
  - exact Hws.
  - simpl. intros c r' [= <- <-]. exact lbracket_not_space.
Qed.

Lemma block_here_completes (keyword s : jsstring) :
  is_Some (block_here keyword s)
  <-> exists x, s = (keyword ++ [colon]) ++ x /\ completes_block x.
Proof.
  split.
  - intros [[[ws body] post] E]. apply block_here_Some in E as (-> & Hws & _).
    exists (ws ++ [lbracket] ++ body ++ [rbracket] ++ post).
    split; [rewrite <- app_assoc; reflexivity|]. exists ws, body, post. auto.
  - intros (x & -> & ws & body & post & -> & Hws).
    destruct (block_here_app keyword ws body post Hws) as (b & p' & E).
    rewrite <- app_assoc. rewrite E. eauto.
Qed.

Lemma plain_keyword_chars (keyword : jsstring) (c : code_unit) :
  plain_keyword keyword = true ->
  c ∈ keyword -> is_space c = false /\ c <> lbracket /\ c <> colon.
Proof.
  intros Hplain Hc. unfold plain_keyword in Hplain.
  apply andb_true_iff in Hplain as [_ H]. rewrite forallb_forall in H.
  apply list_elem_of_In, H in Hc.
  apply andb_true_iff in Hc as [Hc H3]. apply andb_true_iff in Hc as [H1 H2].
  apply negb_true_iff in H1, H2, H3. apply cu_eqb_neq in H2, H3. auto.
Qed.

Lemma plain_keyword_head (keyword : jsstring) :
  plain_keyword keyword = true ->
  exists k0 rest, keyword ++ [colon] = k0 :: rest
                  /\ is_space k0 = false /\ k0 <> lbracket.
Proof.
  intros Hplain. destruct keyword as [|k0 rest]; [discriminate Hplain|].
  exists k0, (rest ++ [colon]). split; [reflexivity|].
  destruct (plain_keyword_chars (k0 :: rest) k0 Hplain) as (H1 & H2 & _);
    [left | auto].
Qed.

Section PlainKeyword.
Variable keyword : jsstring.
Hypothesis Hplain : plain_keyword keyword = true.

(** What completes a block starts with white space or a bracket, so it
    does not start with the keyword. *)
Lemma completes_block_not_keyword (x : jsstring) :
  ~ completes_block ((keyword ++ [colon]) ++ x).
Proof using Hplain.
  intros (ws & body & post & E & Hws).
  destruct (plain_keyword_head keyword Hplain) as (k0 & rest & Hk & Hsp & Hlb).
  rewrite Hk in E.
  destruct ws as [|w ws']; simpl in E; injection E as E1 _.
  - congruence.
  - inversion Hws as [|? ? Hw _]. subst. congruence.
Qed.

(** A text starting with a non-empty [q] and going on with the keyword:
    whether a block starts at its head does not depend on what completes
    the block that follows. *)
Lemma block_here_stable (q x1 x2 : jsstring) :
  q <> [] -> completes_block x1 -> completes_block x2 ->
  is_Some (block_here keyword (q ++ (keyword ++ [colon]) ++ x1)) ->
  is_Some (block_here keyword (q ++ (keyword ++ [colon]) ++ x2)).
Proof using Hplain.
  intros Hq H1 H2 Hb.
  apply block_here_completes in Hb as (y & E & Hy).
  apply block_here_completes.
  apply app_eq_app in E as [l [[Eq Ey] | [Ek Ey]]].
  - (* the keyword lies within [q] *)
    subst q y. destruct Hy as (ws & body & post & E & Hws).
    rewrite (app_assoc ws [lbracket]) in E.
    apply app_eq_app in E as [l2 [[El E2] | [El E2]]].
    + subst l. destruct H2 as (ws2 & b2 & p2 & -> & Hws2).
      exists ((ws ++ [lbracket]) ++ l2 ++ (keyword ++ [colon]) ++ ws2 ++ [lbracket]
              ++ b2 ++ [rbracket] ++ p2).
      split; [rewrite <- !app_assoc; reflexivity|].
      exists ws, (l2 ++ (keyword ++ [colon]) ++ ws2 ++ [lbracket] ++ b2), p2.
      split; [rewrite <- !app_assoc; reflexivity | exact Hws].
    + destruct l2 as [|z l2].
      * rewrite app_nil_r in El. subst l.
        destruct H2 as (ws2 & b2 & p2 & -> & Hws2).
        exists ((ws ++ [lbracket]) ++ (keyword ++ [colon]) ++ ws2 ++ [lbracket]
                ++ b2 ++ [rbracket] ++ p2).
        split; [rewrite <- !app_assoc; reflexivity|].
        exists ws, ((keyword ++ [colon]) ++ ws2 ++ [lbracket] ++ b2), p2.
        split; [rewrite <- !app_assoc; reflexivity | exact Hws].
      * exfalso.
        destruct (plain_keyword_head keyword Hplain) as (k0 & rest & Hk & Hsp & Hlb).
        rewrite Hk in E2. simpl in E2. injection E2 as Ez _. subst z.
        assert (k0 ∈ ws ++ [lbracket]) as Hin.
        { rewrite El, elem_of_app. right. left. }
        rewrite elem_of_app in Hin. destruct Hin as [Hin|Hin].
        -- unfold all_space in Hws. rewrite Forall_forall in Hws.
           specialize (Hws _ Hin). congruence.
        -- apply list_elem_of_singleton in Hin. congruence.
  - (* the keyword starts within [q] and ends behind it *)
    exfalso. destruct l as [|z l].
    + rewrite app_nil_r in Ek. subst q. simpl in Ey. subst y.
      exact (completes_block_not_keyword x1 Hy).
    + apply app_eq_app in Ey as [l3 [[E3 _] | [E3 _]]].
      * (* [z :: l] is a proper prefix of the keyword with its colon *)
        assert (l3 <> []) as Hl3.
        { intros ->. rewrite app_nil_r in E3. rewrite E3 in Ek.
          apply (f_equal length) in Ek. rewrite length_app in Ek.
          destruct q; [congruence | simpl in Ek; lia]. }
        destruct (exists_last Hl3) as (m' & z3 & ->).
        rewrite app_assoc in E3. apply app_inj_tail in E3 as [Ekw _].
        destruct (@exists_last _ (z :: l)) as (l' & zl & El); [discriminate|].
        rewrite El, app_assoc in Ek. apply app_inj_tail in Ek as [_ Ez].
        destruct (plain_keyword_chars keyword colon Hplain) as (_ & _ & Hc);
          [|congruence].
        rewrite Ekw, El, Ez, !elem_of_app. left. right. left.
      * apply (f_equal length) in E3. rewrite Ek, !length_app in E3.
        destruct q; [congruence | simpl in E3; lia].
Qed.

(** The first block stays the first one when what completes it is
    replaced. *)
Lemma find_block_stable (pre x1 x2 ws1 b1 p1 ws2 b2 p2 : jsstring) :
  completes_block x1 ->
  find_block keyword (pre ++ (keyword ++ [colon]) ++ x1) = Some (pre, ws1, b1, p1) ->
  block_here keyword ((keyword ++ [colon]) ++ x2) = Some (ws2, b2, p2) ->
  find_block keyword (pre ++ (keyword ++ [colon]) ++ x2) = Some (pre, ws2, b2, p2).
Proof using Hplain.
  intros H1 Hf Hb.
  assert (completes_block x2) as H2.
  { apply block_here_Some in Hb as (E & Hws & _).
    rewrite <- app_assoc in E. apply app_inv_head in E. apply app_inv_head in E.
    exists ws2, b2, p2. auto. }
  induction pre as [|c pre IH].
  - apply find_block_here, Hb.
  - change ((c :: pre) ++ (keyword ++ [colon]) ++ x1)
      with (c :: pre ++ (keyword ++ [colon]) ++ x1) in Hf.
    change ((c :: pre) ++ (keyword ++ [colon]) ++ x2)
      with (c :: pre ++ (keyword ++ [colon]) ++ x2).
    cbn [find_block] in Hf |- *.
    destruct (block_here keyword (c :: pre ++ (keyword ++ [colon]) ++ x1))
      as [[[w b] p']|] eqn:E1; [discriminate|].
    destruct (find_block keyword (pre ++ (keyword ++ [colon]) ++ x1))
      as [[[[pre0 w] b] p']|] eqn:Ef; [|discriminate].
    injection Hf as -> -> -> ->.
    destruct (block_here keyword (c :: pre ++ (keyword ++ [colon]) ++ x2)) eqn:E2.
    + exfalso.
      assert (is_Some (block_here keyword ((c :: pre) ++ (keyword ++ [colon]) ++ x1)))
        as [v Hv].
      { apply (block_here_stable (c :: pre) x2 x1); [discriminate|assumption..|].
        simpl. rewrite E2. eauto. }
      simpl in Hv. congruence.
    + rewrite (IH eq_refl). reflexivity.
Qed.
End PlainKeyword.

Lemma dbInsertion_no_rbracket (orm : jsstring) : rbracket ∉ dbInsertion orm.
Proof.
  apply (orm_cases (fun o => rbracket ∉ dbInsertion o)).
  - intros ->. compute_done.
  - intros ->. compute_done.
  - intros ->. compute_done.
  - intros E1 E2 E3. unfold dbInsertion, dbModuleImport. rewrite E1, E2, E3.
    compute_done.
Qed.

(** A block patch applied to its own output finds the block it has just
    rebuilt and inserts again. *)
Lemma block_patched_twice (keyword ins : jsstring) (patch : jsstring -> jsstring)
    (s pre ws body post : jsstring) :
  plain_keyword keyword = true ->
  rbracket ∉ ins ->
  (forall t, patch t =
             match find_block keyword t with
             | Some (pre, ws, body, post) =>
                 pre ++ (keyword ++ [colon]) ++ [space] ++ [lbracket]
                     ++ body ++ ins ++ [rbracket] ++ post
             | None => t
             end) ->
  find_block keyword s = Some (pre, ws, body, post) ->
  patch (patch s)
  = pre ++ (keyword ++ [colon]) ++ [space] ++ [lbracket]
        ++ body ++ ins ++ ins ++ [rbracket] ++ post.
Proof.
  intros Hplain Hins Hpatch E.
  destruct (find_block_Some _ _ _ _ _ _ E) as (Hs & Hws & Hb).
  rewrite (Hpatch s), E.
  assert (find_block keyword
            (pre ++ (keyword ++ [colon])
                 ++ [space] ++ [lbracket] ++ (body ++ ins) ++ [rbracket] ++ post)
          = Some (pre, [space], body ++ ins, post)) as E2.
  { apply (find_block_stable keyword Hplain pre
             (ws ++ [lbracket] ++ body ++ [rbracket] ++ post) _ ws body post).
    - exists ws, body, post. auto.
    - rewrite <- E, Hs, <- !app_assoc. reflexivity.
    - rewrite <- app_assoc. apply block_here_exact.
      + repeat constructor.
      + rewrite elem_of_app. intros [?|?]; contradiction. }
  rewrite <- !app_assoc in E2. rewrite (Hpatch _).
  rewrite <- !app_assoc. rewrite E2. rewrite <- !app_assoc. reflexivity.
Qed.

(** X12.  Run on its own output, each block patch registers its entries a
    second time in the same array: the first block of the patched text is
    the block just rebuilt, and the inserted text ends up twice in front
    of its closing bracket. *)
Theorem block_patches_insert_twice (s : jsstring) :
  (has_block (js "imports") s ->
   forall orm, exists pre ws body post,
     first_block_at (js "imports") s pre ws body post
     /\ patchImportsBlock orm (patchImportsBlock orm s)
        = pre ++ js "imports: [" ++ body
              ++ dbInsertion orm ++ dbInsertion orm ++ [rbracket] ++ post)
  /\ (has_block (js "providers") s ->
      exists pre ws body post,
        first_block_at (js "providers") s pre ws body post
        /\ patchProvidersBlock (patchProvidersBlock s)
           = pre ++ js "providers: [" ++ body
                 ++ providersInsertion ++ providersInsertion ++ [rbracket] ++ post).
Proof.
  split.
  - intros H orm. apply find_block_complete in H as [[[[pre ws] body] post] E].
    exists pre, ws, body, post. split; [apply find_block_first_block_at, E|].
    rewrite (block_patched_twice (js "imports") (dbInsertion orm)
               (patchImportsBlock orm) s pre ws body post).
    + rewrite <- !app_assoc. reflexivity.
    + reflexivity.
    + apply dbInsertion_no_rbracket.
    + intros t. unfold patchImportsBlock. rewrite replace_imports.
      destruct (find_block (js "imports") t) as [[[[p0 w0] b0] q0]|];
        [rewrite <- !app_assoc|]; reflexivity.
    + exact E.
  - intros H. apply find_block_complete in H as [[[[pre ws] body] post] E].
    exists pre, ws, body, post. split; [apply find_block_first_block_at, E|].
    rewrite (block_patched_twice (js "providers") providersInsertion
               patchProvidersBlock s pre ws body post).
    + rewrite <- !app_assoc. reflexivity.
    + reflexivity.
    + compute_done.
    + intros t. unfold patchProvidersBlock. rewrite replace_providers.
      destruct (find_block (js "providers") t) as [[[[p0 w0] b0] q0]|];
        [rewrite <- !app_assoc|]; reflexivity.
    + exact E.
Qed.

Lemma block_patches_insert_twice_witness :
  exists pre ws body post,
    first_block_at (js "providers") compact_module_source pre ws body post
    /\ patchProvidersBlock (patchProvidersBlock compact_module_source)
       = pre ++ js "providers: [" ++ body
             ++ providersInsertion ++ providersInsertion ++ [rbracket] ++ post.
Proof.
  apply (proj2 (block_patches_insert_twice compact_module_source)).
  exists (js "@Module({
  imports:[ConfigModule],
  "), (js " "), (js "AppService"), (js ",
})
export class AppModule {}").
  split; [reflexivity | repeat constructor].
Defined.

(* ===================================================================== *)
(** * An ORM name outside the three cases *)
(* ===================================================================== *)

(** X13.  An ORM name that is none of the three cases is accepted without
    any error and without any ORM-specific output: the resolver returns at
    most the driver of the database, the config file is written empty, and
    the root module gets a bare newline in front and an insertion of white
    space only. *)
Theorem unknown_orm_is_accepted_silently (database orm content : jsstring) :
  orm <> js "TypeORM" -> orm <> js "Mongoose" -> orm <> js "Sequelize" ->
  configContent database orm = []
  /\ (getDatabaseDependencies database orm = []
      \/ getDatabaseDependencies database orm = [js "pg"]
      \/ getDatabaseDependencies database orm = [js "mongodb"]
      \/ getDatabaseDependencies database orm = [js "mysql2"])
  /\ patchDbContent orm content = newline :: patchImportsBlock orm content
  /\ dbInsertion orm = js "
    " ++ js "
  ".
Proof.
  intros H1 H2 H3.
  apply str_eqb_neq in H1, H2, H3.
  split; [|split; [|split]].
  - unfold configContent. rewrite H1, H2, H3. reflexivity.
  - unfold getDatabaseDependencies. rewrite H1, H2, H3.
    destruct (str_eqb database (js "PostgreSQL")); [auto|].
    destruct (str_eqb database (js "MongoDB")); [auto|].
    destruct (str_eqb database (js "MySQL")); auto.
  - rewrite patchDbContent_prepend. unfold dbImportStatement.
    rewrite H1, H2, H3. reflexivity.
  - unfold dbInsertion, dbModuleImport. rewrite H1, H2, H3. reflexivity.
Qed.

Lemma unknown_orm_witness :
  configContent (js "MySQL") (js "Prisma") = []
  /\ patchDbContent (js "Prisma") bare_module_source = newline :: bare_module_source.
Proof.
  destruct (unknown_orm_is_accepted_silently (js "MySQL") (js "Prisma")
              bare_module_source) as (H1 & _ & H3 & _);
    [discriminate | discriminate | discriminate |].
  split; [exact H1|]. rewrite H3. vm_compute. reflexivity.
Defined.
